(** * EmPOWER runtime: LVAP resource binding and the summary trigger

    A shallow embedding of [empower/core/lvap.py] and
    [empower/triggers/summary.py].  Python objects become records, dicts
    become [gmap]s, sets become [gset]s, and the imperative methods become
    computations in a small state-and-exception monad whose state survives a
    raised exception, as the fields of a Python object do.  Calls into the
    collaborators of the two files (the connection of an access point, the
    flow-table programmer, the callback of a module) are recorded, oldest
    first, in a trace. *)

From Stdlib Require Import ZArith QArith.QArith_base Lia.
From stdpp Require Import base gmap sets list strings numbers functions pretty.

Local Open Scope Z_scope.

(** ** Addresses and resource blocks *)

(** A 48-bit hardware address ([empower.datatypes.etheraddress]). *)
Definition EtherAddress : Type := N.

(** Modelled from the spec: [ResourceBlock] of [empower.core.resourcepool],
    which is not part of the sources at hand.  A block names the access point
    that owns it ([radio], a reference to the WTP object, represented by the
    address that identifies it), a hardware address, a channel and a band;
    equality and hashing are by these four values. *)
Record ResourceBlock : Type := {
  radio : EtherAddress;
  hwaddr : EtherAddress;
  channel : Z;
  band : Z
}.

#[global] Instance ResourceBlock_eq_dec : EqDecision ResourceBlock.
Proof. solve_decision. Defined.

#[global] Instance ResourceBlock_countable : Countable ResourceBlock.
Proof.
  refine (inj_countable'
            (λ b, (radio b, hwaddr b, channel b, band b))
            (λ t, match t with
                  | (r, h, c, d) =>
                      {| radio := r; hwaddr := h; channel := c; band := d |}
                  end) _).
  by intros [].
Defined.

(** Modelled from the spec: [ResourcePool] of [empower.core.resourcepool], a
    set of resource blocks without duplicates.  Equality is equality of
    sets, and [pop] removes and returns one element, here the first one in
    the enumeration order of the set. *)
Abbreviation ResourcePool := (gset ResourceBlock).

Definition pool_pop (p : ResourcePool) : option (ResourceBlock * ResourcePool) :=
  match elements p with
  | [] => None
  | b :: _ => Some (b, p ∖ {[ b ]})
  end.

(** Truth value of a pool: an empty set is false. *)
Definition pool_truthy (p : ResourcePool) : bool := bool_decide (p ≠ ∅).

(** ** Python values, exceptions and the method monad *)

(** The values a descriptor dict holds. *)
Inductive Scalar : Type :=
| SInt (z : Z)
| SStr (s : string)
| SAddr (a : EtherAddress).

(** The values handed to the dynamically typed setters.  A pool is a mutable
    object the caller keeps a reference to, so it is passed by location. *)
Inductive PyVal : Type :=
| VNone
| VInt (z : Z)
| VStr (s : string)
| VAddr (a : EtherAddress)
| VBlock (b : ResourceBlock)
| VPool (l : nat)
| VDict (d : gmap string Scalar).

Inductive Key : Type :=
| KInt (z : Z)
| KStr (s : string)
| KAddr (a : EtherAddress)
| KBlock (b : ResourceBlock).

(** The exceptions the two files raise or let through; [FieldError] is the
    error with which the [construct] library refuses to build a container
    that does not fit its struct. *)
Inductive Exn : Type :=
| KeyError (k : Key)
| ValueError (msg : string)
| TypeError (msg : string)
| AttributeError (msg : string)
| StopIteration
| FieldError.

Inductive Outcome (A : Type) : Type :=
| Return (a : A)
| Raise (e : Exn).
Arguments Return {A} a.
Arguments Raise {A} e.

(** A method body: it reads and writes the state [S] and either returns or
    raises; what it wrote before raising stays written. *)
Definition M (S A : Type) : Type := S → Outcome A * S.

Section monad.
Context {S : Type}.

Definition ret {A} (a : A) : M S A := λ s, (Return a, s).

Definition raise {A} (e : Exn) : M S A := λ s, (Raise e, s).

Definition bind {A B} (c : M S A) (k : A → M S B) : M S B :=
  λ s, match c s with
       | (Return a, s') => k a s'
       | (Raise e, s') => (Raise e, s')
       end.

Definition get : M S S := λ s, (Return s, s).

Definition modify (f : S → S) : M S unit := λ s, (Return tt, f s).

(** [for x in l: body(x)] over a list fixed before the loop starts. *)
Fixpoint for_each {A} (l : list A) (body : A → M S unit) : M S unit :=
  match l with
  | [] => ret tt
  | x :: l' => bind (body x) (λ _, for_each l' body)
  end.
End monad.

Notation "'let*' x ':=' c 'in' k" := (bind c (λ x, k))
  (at level 10, x name, c at level 100, k at level 200).
Notation "c ';;' k" := (bind c (λ _, k))
  (at level 100, k at level 200, right associativity).

(** ** What the sources leave open *)

(** What the two files take from modules that are not part of the sources at
    hand: the protocol version ([empower.lvapp.PT_VERSION]), the identifier
    of the legacy 20 MHz band ([empower.core.resourcepool.BT_L20]), the
    constructor of hardware addresses and Python's [int], either of which
    may raise on a value it cannot convert; the relation by which
    [ResourcePool.__and__] takes a block of its left pool to match a block
    of its right pool; and what [remove_module] of the worker does with an
    id that is not registered: it returns, or it raises. *)
Class Externals : Type := {
  PT_VERSION : Z;
  BT_L20 : Z;
  EtherAddress_new : Scalar → Outcome EtherAddress;
  py_int : Scalar → Outcome Z;
  block_match : ResourceBlock → ResourceBlock → bool;
  remove_missing : N → Outcome unit
}.

(** Modelled from the spec: [ResourcePool.__and__], the sub-pool of the left
    pool whose blocks match a block of the right pool.  The spec has the
    match two ways, by value equality (section 4.1) and by hardware address,
    channel and band on another access point (section 4.4), the docstring of
    [LVAP] has it by channel and band, and the setter of [Summary.block]
    allows for more than one match; so the relation is left open. *)
Definition pool_and {ext : Externals} (a b : ResourcePool) : ResourcePool :=
  filter (λ x, set_Exists (λ y, block_match x y) b) a.

(** ** Access points and collaborator calls *)

(** A switch port an access point reports. *)
Record NetworkPort : Type := {
  port_id : N;
  port_hwaddr : EtherAddress;
  iface : string
}.

(** [wtp.connection]: [None], or a connection whose stream is closed or
    open. *)
Inductive Connection : Type :=
| NoConnection
| StreamClosed
| StreamOpen.

(** Modelled from the spec: the access point (WTP) object, whose class is not
    part of the sources at hand.  The two files use its switch ports
    ([wtp.ports.values()]), its pool of supported blocks ([wtp.supports]),
    its connection, and its sequence number, which increases every time it
    is read. *)
Record WTP : Type := {
  wtp_ports : list NetworkPort;
  wtp_supports : ResourcePool;
  wtp_connection : Connection;
  wtp_seq : N
}.

(** [wtp.connection and not wtp.connection.stream.closed()]. *)
Definition wtp_connected (w : WTP) : bool :=
  match wtp_connection w with
  | StreamOpen => true
  | _ => false
  end.

(** Flag of an add-client message: [DownlinkPort.SET_MASK] replaces,
    [UplinkPort.SET_MASK] merges. *)
Inductive SetMask : Type := Replace | Merge.

(** Port configuration; [DefaultSettings] is what [RadioPort(lvap, block)]
    carries. *)
Inductive PortSettings : Type :=
| DefaultSettings
| Settings (tx_power : Z) (no_ack : bool).

(** Modelled from the spec: [RadioPort] of [empower.core.radioport], the
    configuration of one (LVAP, block) pair with the back-references the wire
    messages are routed by. *)
Record RadioPort : Type := {
  port_lvap : EtherAddress;
  port_block : ResourceBlock;
  port_settings : PortSettings
}.

(** The container of a teardown message ([DEL_SUMMARY]). *)
Record Container : Type := {
  c_version : Z;
  c_type : Z;
  c_length : Z;
  c_seq : N;
  c_module_id : N
}.

Inductive Event : Type :=
| send_add_lvap (wtp lvap : EtherAddress) (block : ResourceBlock) (mask : SetMask)
| send_del_lvap (wtp lvap : EtherAddress)
| send_set_port (wtp : EtherAddress) (port : RadioPort)
| add_station_flows (sta wtp : EtherAddress) (ovs_port_id : N)
| remove_station_flows (sta wtp : EtherAddress)
| stream_write (wtp : EtherAddress) (msg : list Z)
| handle_callback (module_id : N).

#[global] Instance NetworkPort_eq_dec : EqDecision NetworkPort.
Proof. solve_decision. Defined.
#[global] Instance SetMask_eq_dec : EqDecision SetMask.
Proof. solve_decision. Defined.
#[global] Instance PortSettings_eq_dec : EqDecision PortSettings.
Proof. solve_decision. Defined.
#[global] Instance RadioPort_eq_dec : EqDecision RadioPort.
Proof. solve_decision. Defined.
#[global] Instance Connection_eq_dec : EqDecision Connection.
Proof. solve_decision. Defined.
#[global] Instance Container_eq_dec : EqDecision Container.
Proof. solve_decision. Defined.
#[global] Instance Event_eq_dec : EqDecision Event.
Proof. solve_decision. Defined.
#[global] Instance Scalar_eq_dec : EqDecision Scalar.
Proof. solve_decision. Defined.

(** The keys and the values of a dict, in its iteration order. *)
Definition keys {K V} `{Countable K} (m : gmap K V) : list K := (map_to_list m).*1.
Definition values {K V} `{Countable K} (m : gmap K V) : list V := (map_to_list m).*2.

(** ** [empower/core/lvap.py] *)

Module lvap.

(** The descriptor [VirtualPort(dpid, ovs_port_id, virtual_port_id, hwaddr,
    iface)] that [set_ports] builds. *)
Record VirtualPort : Type := {
  dpid : EtherAddress;
  ovs_port_id : N;
  virtual_port_id : N;
  vp_hwaddr : EtherAddress;
  vp_iface : string
}.

(** The fields of an [LVAP] object.  The sample buffers and the rate
    statistics, which no method below reads or writes, are left out;
    [ports] is the private dict behind the [ports] property. *)
Record LVAP : Type := {
  addr : EtherAddress;
  bssid : EtherAddress;
  supports : ResourcePool;
  authentication_state : bool;
  association_state : bool;
  _ssids : list string;
  _encap : EtherAddress;
  _assoc_id : Z;
  _ssid : option string;
  _downlink : gmap ResourceBlock RadioPort;
  _uplink : gmap ResourceBlock RadioPort;
  ports : gmap nat VirtualPort
}.

Definition with_ssids (v : list string) (l : LVAP) : LVAP :=
  {| addr := addr l; bssid := bssid l; supports := supports l;
     authentication_state := authentication_state l;
     association_state := association_state l;
     _ssids := v; _encap := _encap l; _assoc_id := _assoc_id l;
     _ssid := _ssid l; _downlink := _downlink l; _uplink := _uplink l;
     ports := ports l |}.

Definition with_encap (v : EtherAddress) (l : LVAP) : LVAP :=
  {| addr := addr l; bssid := bssid l; supports := supports l;
     authentication_state := authentication_state l;
     association_state := association_state l;
     _ssids := _ssids l; _encap := v; _assoc_id := _assoc_id l;
     _ssid := _ssid l; _downlink := _downlink l; _uplink := _uplink l;
     ports := ports l |}.

Definition with_assoc_id (v : Z) (l : LVAP) : LVAP :=
  {| addr := addr l; bssid := bssid l; supports := supports l;
     authentication_state := authentication_state l;
     association_state := association_state l;
     _ssids := _ssids l; _encap := _encap l; _assoc_id := v;
     _ssid := _ssid l; _downlink := _downlink l; _uplink := _uplink l;
     ports := ports l |}.

Definition with_ssid (v : option string) (l : LVAP) : LVAP :=
  {| addr := addr l; bssid := bssid l; supports := supports l;
     authentication_state := authentication_state l;
     association_state := association_state l;
     _ssids := _ssids l; _encap := _encap l; _assoc_id := _assoc_id l;
     _ssid := v; _downlink := _downlink l; _uplink := _uplink l;
     ports := ports l |}.

Definition with_downlink (v : gmap ResourceBlock RadioPort) (l : LVAP) : LVAP :=
  {| addr := addr l; bssid := bssid l; supports := supports l;
     authentication_state := authentication_state l;
     association_state := association_state l;
     _ssids := _ssids l; _encap := _encap l; _assoc_id := _assoc_id l;
     _ssid := _ssid l; _downlink := v; _uplink := _uplink l;
     ports := ports l |}.

Definition with_uplink (v : gmap ResourceBlock RadioPort) (l : LVAP) : LVAP :=
  {| addr := addr l; bssid := bssid l; supports := supports l;
     authentication_state := authentication_state l;
     association_state := association_state l;
     _ssids := _ssids l; _encap := _encap l; _assoc_id := _assoc_id l;
     _ssid := _ssid l; _downlink := _downlink l; _uplink := v;
     ports := ports l |}.

Definition with_ports (v : gmap nat VirtualPort) (l : LVAP) : LVAP :=
  {| addr := addr l; bssid := bssid l; supports := supports l;
     authentication_state := authentication_state l;
     association_state := association_state l;
     _ssids := _ssids l; _encap := _encap l; _assoc_id := _assoc_id l;
     _ssid := _ssid l; _downlink := _downlink l; _uplink := _uplink l;
     ports := v |}.

(** What a method of an LVAP can see and change: the object itself, the
    access points its blocks refer to, the pool objects its callers hold,
    and the trace of collaborator calls.  The pool objects of the callers
    are objects of their own: a caller that hands [lvap.supports] or
    [wtp.supports] itself to the setter of [downlink], which pops from the
    object it is handed, is not among the callers described here. *)
Record State : Type := {
  self : LVAP;
  wtps : EtherAddress → WTP;
  heap : nat → ResourcePool;
  calls : list Event
}.

Definition update (f : LVAP → LVAP) : M State unit :=
  modify (λ st, {| self := f (self st); wtps := wtps st;
                   heap := heap st; calls := calls st |}).

Definition call (e : Event) : M State unit :=
  modify (λ st, {| self := self st; wtps := wtps st;
                   heap := heap st; calls := calls st ++ [e] |}).

Definition store (l : nat) (p : ResourcePool) : M State unit :=
  modify (λ st, {| self := self st; wtps := wtps st;
                   heap := <[ l := p ]> (heap st); calls := calls st |}).

Definition this : M State LVAP := λ st, (Return (self st), st).

(** *** The port tables of [empower.core.radioport] *)

(** [RadioPort(lvap, block)]: the default configuration. *)
Definition RadioPort_new (l : LVAP) (block : ResourceBlock) : RadioPort :=
  {| port_lvap := addr l; port_block := block;
     port_settings := DefaultSettings |}.

(** Modelled from the spec: [DownlinkPort.__setitem__], whose class is not
    part of the sources at hand.  Assigning to a key already bound sends a
    port update; binding into an empty table sends an add-client message
    with the replace flag and then, as the docstring of [LVAP] has it, the
    port update; binding into a table that holds another key is rejected.
    The virtual-port set-up and the flow-table programming that go with a
    new downlink entry are the calls to [set_ports] and [set_tables] that
    the setter of [downlink] makes itself. *)
Definition downlink_setitem (key : ResourceBlock) (value : RadioPort)
  : M State unit :=
  let* l := this in
  if decide (is_Some (_downlink l !! key)) then
    update (with_downlink (<[ key := value ]> (_downlink l))) ;;
    call (send_set_port (radio key) value)
  else if decide (_downlink l = ∅) then
    update (with_downlink (<[ key := value ]> (_downlink l))) ;;
    call (send_add_lvap (radio key) (port_lvap value) key Replace) ;;
    call (send_set_port (radio key) value)
  else
    raise (ValueError "Downlink ports can have only one entry").

(** Modelled from the spec: [UplinkPort.__setitem__].  The same triggers
    with the merge flag and without the limit of one entry; a new uplink
    entry carries no port configuration to send. *)
Definition uplink_setitem (key : ResourceBlock) (value : RadioPort)
  : M State unit :=
  let* l := this in
  if decide (is_Some (_uplink l !! key)) then
    update (with_uplink (<[ key := value ]> (_uplink l))) ;;
    call (send_set_port (radio key) value)
  else
    update (with_uplink (<[ key := value ]> (_uplink l))) ;;
    call (send_add_lvap (radio key) (port_lvap value) key Merge).

(** Modelled from the spec: [DownlinkPort.__delitem__].  A delete-client
    message goes to the access point of the block unless its connection is
    closed, then the entry is removed.  The flow-table teardown that goes
    with it is the call to [clear_tables] that the setter of [downlink]
    makes itself. *)
Definition downlink_delitem (key : ResourceBlock) : M State unit :=
  let* st := get in
  match _downlink (self st) !! key with
  | None => raise (KeyError (KBlock key))
  | Some port =>
      (if wtp_connected (wtps st (radio key))
       then call (send_del_lvap (radio key) (port_lvap port))
       else ret tt) ;;
      update (with_downlink (delete key (_downlink (self st))))
  end.

(** Modelled from the spec: [UplinkPort.__delitem__]. *)
Definition uplink_delitem (key : ResourceBlock) : M State unit :=
  let* st := get in
  match _uplink (self st) !! key with
  | None => raise (KeyError (KBlock key))
  | Some port =>
      (if wtp_connected (wtps st (radio key))
       then call (send_del_lvap (radio key) (port_lvap port))
       else ret tt) ;;
      update (with_uplink (delete key (_uplink (self st))))
  end.

(** *** The methods of [LVAP] *)

(** The [wtp] property: the access point of the first downlink key, [None]
    when the downlink table is empty. *)
Definition wtp (l : LVAP) : option EtherAddress :=
  match keys (_downlink l) with
  | [] => None
  | default_block :: _ => Some (radio default_block)
  end.

Definition set_tables : M State unit :=
  let* l := this in
  match wtp l with
  | None => ret tt
  | Some w =>
      match ports l !! 0%nat with
      | None => raise (KeyError (KInt 0))
      | Some port => call (add_station_flows (addr l) w (ovs_port_id port))
      end
  end.

Definition clear_tables : M State unit :=
  let* l := this in
  match wtp l with
  | None => ret tt
  | Some w => call (remove_station_flows (addr l) w)
  end.

Definition set_ports : M State unit :=
  update (with_ports ∅) ;;
  let* st := get in
  match wtp (self st) with
  | None => ret tt
  | Some w =>
      for_each (wtp_ports (wtps st w))
        (λ port,
           if decide (iface port ≠ "empower0") then ret tt
           else
             let virtual_port :=
               {| dpid := w; ovs_port_id := port_id port;
                  virtual_port_id := 0%N; vp_hwaddr := port_hwaddr port;
                  vp_iface := iface port |} in
             let* l := this in
             update (with_ports (<[ 0%nat := virtual_port ]> (ports l))))
  end.

(** [port.block.radio.connection.send_add_lvap(port.lvap, port.block,
    mask)]: the call is made on the connection object, so it raises when
    there is none.  On a connection whose stream is closed the call is made
    all the same: what the connection does with it is its own business, and
    section 7 of the spec has such a send degrade to a no-op. *)
Definition connection_send_add_lvap (mask : SetMask) (port : RadioPort)
  : M State unit :=
  let* st := get in
  match wtp_connection (wtps st (radio (port_block port))) with
  | NoConnection => raise (AttributeError "send_add_lvap")
  | _ => call (send_add_lvap (radio (port_block port)) (port_lvap port)
                 (port_block port) mask)
  end.

(** The two loops every setter of a client attribute ends with. *)
Definition resend_add_lvap : M State unit :=
  (let* l := this in
   for_each (values (_downlink l)) (connection_send_add_lvap Replace)) ;;
  (let* l := this in
   for_each (values (_uplink l)) (connection_send_add_lvap Merge)).

(** [lvap.encap = encap]; the argument is an address or [None]. *)
Definition encap_set (encap : option EtherAddress) : M State unit :=
  let encap := match encap with None => 0%N | Some a => a end in
  let* l := this in
  if decide (_encap l = encap) then ret tt
  else update (with_encap encap) ;; resend_add_lvap.

Definition assoc_id_set (assoc_id : Z) : M State unit :=
  let* l := this in
  if decide (_assoc_id l = assoc_id) then ret tt
  else update (with_assoc_id assoc_id) ;; resend_add_lvap.

Definition ssids_set (ssids : list string) : M State unit :=
  update (with_ssids ssids).

Definition ssid_set (ssid : option string) : M State unit :=
  let* l := this in
  if decide (_ssid l = ssid) then ret tt
  else update (with_ssid ssid) ;; resend_add_lvap.

(** Truth value of an argument, as [if not downlink] takes it. *)
Definition truthy (st : State) (v : PyVal) : bool :=
  match v with
  | VNone => false
  | VInt z => bool_decide (z ≠ 0)
  | VStr s => bool_decide (s ≠ "")
  | VAddr _ => true
  | VBlock _ => true
  | VPool l => pool_truthy (heap st l)
  | VDict d => bool_decide (d ≠ ∅)
  end.

(** The local variable [pool] of the setter: the caller's own pool object
    when a pool was passed, a pool of the setter's own when a lone block
    was. *)
Inductive PoolRef : Type :=
| Aliased (l : nat)
| Owned (p : ResourcePool).

Definition pool_read (r : PoolRef) : M State ResourcePool :=
  match r with
  | Aliased l => λ st, (Return (heap st l), st)
  | Owned p => ret p
  end.

(** [pool.pop()]: it changes the object [pool] refers to. *)
Definition pool_pop_ref (r : PoolRef) : M State (ResourceBlock * PoolRef) :=
  let* p := pool_read r in
  match pool_pop p with
  | None => raise (KeyError (KStr "pop from an empty set"))
  | Some (b, p') =>
      match r with
      | Aliased l => store l p' ;; ret (b, Aliased l)
      | Owned _ => ret (b, Owned p')
      end
  end.

(** The setter of [downlink] once its argument is known to be a pool:
    [pool] is the local variable of that name. *)
Definition downlink_set_pool (pool : PoolRef) : M State unit :=
  let* l := this in
  let* requested := pool_read pool in
  let current : ResourcePool :=
    list_to_set (keys (_downlink l) ++ keys (_uplink l)) in
  if decide (current = requested) then
    set_ports ;; clear_tables ;; set_tables
  else
    clear_tables ;;
    (let* l := this in for_each (keys (_downlink l)) downlink_delitem) ;;
    (let* l := this in for_each (keys (_uplink l)) uplink_delitem) ;;
    let* popped := pool_pop_ref pool in
    let default_block := popped.1 in
    let pool := popped.2 in
    (let* l := this in
     downlink_setitem default_block (RadioPort_new l default_block)) ;;
    set_ports ;;
    set_tables ;;
    let* rest := pool_read pool in
    for_each (elements rest)
      (λ block,
         let* l := this in
         uplink_setitem block (RadioPort_new l block)).

(** [lvap.downlink = downlink]. *)
Definition downlink_set (downlink : PyVal) : M State unit :=
  let* st := get in
  if negb (truthy st downlink) then ret tt
  else
    match downlink with
    | VPool l => downlink_set_pool (Aliased l)
    | VBlock b => downlink_set_pool (Owned {[ b ]})
    | _ => raise (TypeError "Expected ResourcePool, ResourceBlock")
    end.

(** [lvap.scheduled_on = scheduled_on]. *)
Definition scheduled_on_set (scheduled_on : PyVal) : M State unit :=
  downlink_set scheduled_on.

(** [lvap.wtp = wtp]; the argument is a reference to an access point. *)
Definition wtp_set {ext : Externals} (target : EtherAddress) : M State unit :=
  let* st := get in
  match keys (_downlink (self st)) with
  | [] => raise StopIteration
  | default_block :: _ =>
      let matching : ResourcePool :=
        pool_and (wtp_supports (wtps st target))
                 (list_to_set [default_block]) in
      if pool_truthy matching then
        match pool_pop matching with
        | None => raise (KeyError (KStr "pop from an empty set"))
        | Some (b, _) => scheduled_on_set (VBlock b)
        end
      else scheduled_on_set VNone
  end.

(** *** Vocabulary of the statements *)

(** The virtual ports [set_ports] leaves for an LVAP on access point [w]
    with the switch ports [ps]: the descriptor of the last port named
    [empower0], under the index 0. *)
Definition virtual_ports (w : EtherAddress) (ps : list NetworkPort)
  : gmap nat VirtualPort → gmap nat VirtualPort :=
  λ init,
    foldl (λ acc port,
             if decide (iface port ≠ "empower0") then acc
             else <[ 0%nat := {| dpid := w; ovs_port_id := port_id port;
                                virtual_port_id := 0%N;
                                vp_hwaddr := port_hwaddr port;
                                vp_iface := iface port |} ]> acc)
          init ps.

(** The add-client message for a port. *)
Definition add_event (mask : SetMask) (port : RadioPort) : Event :=
  send_add_lvap (radio (port_block port)) (port_lvap port) (port_block port)
    mask.

(** The ports an add-client loop gets to: those before the first port
    whose access point has no connection. *)
Fixpoint served (w : EtherAddress → WTP) (l : list RadioPort)
  : list RadioPort :=
  match l with
  | [] => []
  | port :: l' =>
      match wtp_connection (w (radio (port_block port))) with
      | NoConnection => []
      | _ => port :: served w l'
      end
  end.

(** The delete-client messages for the entries of a table: one for every
    entry whose access point is connected. *)
Definition del_events (w : EtherAddress → WTP)
    (entries : list (ResourceBlock * RadioPort)) : list Event :=
  flat_map (λ kv, if wtp_connected (w (radio kv.1))
                  then [send_del_lvap (radio kv.1) (port_lvap kv.2)]
                  else [])
           entries.

(** The pool a variable refers to, and the pool objects of the callers
    once the object it refers to has become [p]. *)
Definition ref_pool (st : State) (r : PoolRef) : ResourcePool :=
  match r with
  | Aliased l => heap st l
  | Owned p => p
  end.

Definition heap_after (st : State) (r : PoolRef) (p : ResourcePool)
  : nat → ResourcePool :=
  match r with
  | Aliased l => <[ l := p ]> (heap st)
  | Owned _ => heap st
  end.

(** The variable [pool] of the setter for an argument it accepts. *)
Definition pool_of_arg (v : PyVal) : option PoolRef :=
  match v with
  | VPool l => Some (Aliased l)
  | VBlock b => Some (Owned {[ b ]})
  | _ => None
  end.

Definition ref_after (r : PoolRef) (p : ResourcePool) : PoolRef :=
  match r with
  | Aliased l => Aliased l
  | Owned _ => Owned p
  end.

(** The flow-table call of [clear_tables]. *)
Definition clear_events (l : LVAP) : list Event :=
  match wtp l with
  | None => []
  | Some w => [remove_station_flows (addr l) w]
  end.

(** The uplink table after binding the blocks [bs] with default ports. *)
Definition bind_uplinks (l : LVAP) (bs : list ResourceBlock)
    (m : gmap ResourceBlock RadioPort) : gmap ResourceBlock RadioPort :=
  foldl (λ m b, <[ b := RadioPort_new l b ]> m) m bs.

Definition with_calls (c : list Event) (st : State) : State :=
  {| self := self st; wtps := wtps st; heap := heap st; calls := c |}.

Definition with_self (l : LVAP) (st : State) : State :=
  {| self := l; wtps := wtps st; heap := heap st; calls := calls st |}.

Definition with_heap (h : nat → ResourcePool) (st : State) : State :=
  {| self := self st; wtps := wtps st; heap := h; calls := calls st |}.

(** *** The remaining members of [LVAP] *)

(** [LVAP(addr, bssid_addr)]: an LVAP bound to nothing, with the zero
    encapsulation address and no SSID. *)
Definition LVAP_new (addr bssid_addr : EtherAddress) : LVAP :=
  {| addr := addr; bssid := bssid_addr; supports := ∅;
     authentication_state := false; association_state := false;
     _ssids := []; _encap := 0%N; _assoc_id := 0; _ssid := None;
     _downlink := ∅; _uplink := ∅; ports := ∅ |}.

(** The [port] property: the first downlink port, [None] when the downlink
    table is empty. *)
Definition port (l : LVAP) : option RadioPort :=
  match values (_downlink l) with
  | [] => None
  | default_port :: _ => Some default_port
  end.

(** The calls to the flow-table programmer. *)
Definition is_flow_call (e : Event) : Prop :=
  match e with
  | add_station_flows _ _ _ | remove_station_flows _ _ => True
  | _ => False
  end.

(** The add-client calls. *)
Definition is_add_lvap (e : Event) : Prop :=
  match e with
  | send_add_lvap _ _ _ _ => True
  | _ => False
  end.

(** The virtual port [set_ports] builds on a switch port of access point
    [w]. *)
Definition virtual_port_on (w : EtherAddress) (p : NetworkPort) : VirtualPort :=
  {| dpid := w; ovs_port_id := port_id p; virtual_port_id := 0%N;
     vp_hwaddr := port_hwaddr p; vp_iface := iface p |}.

(** The switch ports of an access point that [set_ports] does not skip. *)
Definition empower_ports (ps : list NetworkPort) : list NetworkPort :=
  filter (λ p, iface p = "empower0") ps.

End lvap.

(** ** [empower/triggers/summary.py] *)

Module summary.

Definition PT_ADD_SUMMARY : Z := 0x22.
Definition PT_SUMMARY : Z := 0x23.
Definition PT_DEL_SUMMARY : Z := 0x24.

(** One entry of a decoded response ([SUMMARY_ENTRY]), a sequence read by
    position: [recv[0]] is the address, ..., [recv[7]] the length. *)
Record SUMMARY_ENTRY : Type := {
  e_addr : EtherAddress;
  e_tsft : Z;
  e_seq : Z;
  e_rssi : Z;
  e_rate : Z;
  e_type : Z;
  e_subtype : Z;
  e_length : Z
}.

(** A Python number: [int(x)] or the float [int(x) / 2.0], which is exact
    for the integers at hand and kept as the fraction it is. *)
Inductive Number : Type :=
| NInt (z : Z)
| NFloat (q : Q).

(** The dict [handle_response] builds for an entry. *)
Record Frame : Type := {
  f_tsft : Z;
  f_seq : Z;
  f_rssi : Z;
  f_rate : Number;
  f_type : string;
  f_subtype : PyVal;
  f_length : Z
}.

(** The fields of a [Summary] module, those of its base class [Module]
    included. *)
Record Summary : Type := {
  module_id : N;
  module_type : string;
  tenant_id : N;
  _addr : option EtherAddress;
  _block : option ResourceBlock;
  _limit : Z;
  _period : Z;
  frames : list Frame
}.

Definition with_block (v : option ResourceBlock) (m : Summary) : Summary :=
  {| module_id := module_id m; module_type := module_type m;
     tenant_id := tenant_id m; _addr := _addr m; _block := v;
     _limit := _limit m; _period := _period m; frames := frames m |}.

Definition with_frames (v : list Frame) (m : Summary) : Summary :=
  {| module_id := module_id m; module_type := module_type m;
     tenant_id := tenant_id m; _addr := _addr m; _block := _block m;
     _limit := _limit m; _period := _period m; frames := v |}.

(** What a method of a module or of its worker can see and change: the
    module itself, the registry of the worker ([worker.modules]), the
    runtime ([RUNTIME.tenants], each tenant with the addresses of its
    access points, and the keys of [RUNTIME.wtps]), the access points and
    the trace of collaborator calls. *)
Record State : Type := {
  self : Summary;
  modules : gmap N Summary;
  tenants : gmap N (gset EtherAddress);
  runtime_wtps : gset EtherAddress;
  wtps : EtherAddress → WTP;
  calls : list Event
}.

Definition update (f : Summary → Summary) : M State unit :=
  modify (λ st, {| self := f (self st); modules := modules st;
                   tenants := tenants st; runtime_wtps := runtime_wtps st;
                   wtps := wtps st; calls := calls st |}).

Definition call (e : Event) : M State unit :=
  modify (λ st, {| self := self st; modules := modules st;
                   tenants := tenants st; runtime_wtps := runtime_wtps st;
                   wtps := wtps st; calls := calls st ++ [e] |}).

Definition this : M State Summary := λ st, (Return (self st), st).

Definition lift {A} (o : Outcome A) : M State A := λ st, (o, st).

(** Modelled from the spec: [remove_module] of the worker's base class
    [ModuleLVAPPWorker], which is not part of the sources at hand.  It
    takes a registered module out of the registry and sends nothing.  What
    it does with an id that is not registered the spec does not say: it
    returns or it raises, as [remove_missing] has it, and changes
    nothing. *)
Definition remove_module {ext : Externals} (module_id : N) : M State unit :=
  let* st := get in
  if decide (is_Some (modules st !! module_id)) then
    modify (λ st, {| self := self st;
                     modules := delete module_id (modules st);
                     tenants := tenants st; runtime_wtps := runtime_wtps st;
                     wtps := wtps st; calls := calls st |})
  else lift (remove_missing module_id).

(** Modelled from the spec: the property [wtp.seq], a sequence number that
    increases with every read. *)
Definition seq_read (w : EtherAddress) : M State N :=
  λ st,
    let n := (wtp_seq (wtps st w) + 1)%N in
    let bumped :=
      {| wtp_ports := wtp_ports (wtps st w);
         wtp_supports := wtp_supports (wtps st w);
         wtp_connection := wtp_connection (wtps st w);
         wtp_seq := n |} in
    (Return n,
     {| self := self st; modules := modules st; tenants := tenants st;
        runtime_wtps := runtime_wtps st;
        wtps := <[ w := bumped ]> (wtps st); calls := calls st |}).

(** *** The wire formats *)

(** The structs the file declares with the [construct] library: a struct
    is its fields one after the other, in the order of the declaration.
    The fields themselves are those of the library, which is not part of
    the sources.  A byte is a number from 0 to 255; a hardware address is
    the 48-bit number of its six raw bytes. *)

(** Modelled from the spec: the integers of section 4.6 are big-endian and
    of fixed width; [be_bytes n z] are the [n] bytes of [z], most
    significant first. *)
Fixpoint be_bytes (n : nat) (z : Z) : list Z :=
  match n with
  | O => []
  | S n' => be_bytes n' (z / 256) ++ [z mod 256]
  end.

(** Modelled from the spec: the number a list of bytes stands for, most
    significant byte first. *)
Definition be_value (bs : list Z) : Z :=
  foldl (λ acc b, acc * 256 + b) 0 bs.

(** Modelled from the spec: building an unsigned field of [n] bytes, which
    the library refuses for a value that does not fit.  [UBInt8],
    [UBInt16], [UBInt32], [UBInt64] and [Bytes(_, 6)] for an address are
    the widths 1, 2, 4, 8 and 6. *)
Definition UBInt_build (n : nat) (z : Z) : option (list Z) :=
  if decide (0 ≤ z < 256 ^ Z.of_nat n) then Some (be_bytes n z) else None.

(** Modelled from the spec: building a signed field of [n] bytes, in two's
    complement; [SBInt8] and [SBInt16] are the widths 1 and 2. *)
Definition SBInt_build (n : nat) (z : Z) : option (list Z) :=
  if decide (- (256 ^ Z.of_nat n / 2) ≤ z < 256 ^ Z.of_nat n / 2)
  then Some (be_bytes n (z mod 256 ^ Z.of_nat n))
  else None.

(** Modelled from the spec: the next [n] bytes and what follows them;
    parsing fails when the bytes run out. *)
Definition take_field (n : nat) (bs : list Z) : option (list Z * list Z) :=
  if decide (n ≤ length bs)%nat then Some (take n bs, drop n bs) else None.

(** Modelled from the spec: parsing an unsigned field of [n] bytes. *)
Definition UBInt_parse (n : nat) (bs : list Z) : option (Z * list Z) :=
  match take_field n bs with
  | None => None
  | Some (field, rest) => Some (be_value field, rest)
  end.

(** Modelled from the spec: parsing a signed field of [n] bytes. *)
Definition SBInt_parse (n : nat) (bs : list Z) : option (Z * list Z) :=
  match take_field n bs with
  | None => None
  | Some (field, rest) =>
      let u := be_value field in
      Some (if decide (u < 256 ^ Z.of_nat n / 2) then u
            else u - 256 ^ Z.of_nat n, rest)
  end.

(** [DEL_SUMMARY]: version, type, length, seq, module_id. *)
Definition DEL_SUMMARY_build (c : Container) : option (list Z) :=
  version ← UBInt_build 1 (c_version c);
  type ← UBInt_build 1 (c_type c);
  length ← UBInt_build 2 (c_length c);
  seq ← UBInt_build 4 (Z.of_N (c_seq c));
  module_id ← UBInt_build 4 (Z.of_N (c_module_id c));
  Some (version ++ type ++ length ++ seq ++ module_id).

Definition DEL_SUMMARY_parse (bs : list Z) : option (Container * list Z) :=
  '(version, bs) ← UBInt_parse 1 bs;
  '(type, bs) ← UBInt_parse 1 bs;
  '(length, bs) ← UBInt_parse 2 bs;
  '(seq, bs) ← UBInt_parse 4 bs;
  '(module_id, bs) ← UBInt_parse 4 bs;
  Some ({| c_version := version; c_type := type; c_length := length;
           c_seq := Z.to_N seq; c_module_id := Z.to_N module_id |}, bs).

(** The container [run_once] builds; the addresses stand for their raw
    bytes. *)
Record Request : Type := {
  q_version : Z;
  q_type : Z;
  q_length : Z;
  q_seq : N;
  q_module_id : N;
  q_limit : Z;
  q_period : Z;
  q_wtp : EtherAddress;
  q_addr : EtherAddress;
  q_hwaddr : EtherAddress;
  q_channel : Z;
  q_band : Z
}.

(** [ADD_SUMMARY]: the header, then addr, hwaddr, channel, band, limit and
    period.  The container of [run_once] has one attribute more, [wtp],
    which the struct has no field for and leaves out. *)
Definition ADD_SUMMARY_build (q : Request) : option (list Z) :=
  version ← UBInt_build 1 (q_version q);
  type ← UBInt_build 1 (q_type q);
  length ← UBInt_build 2 (q_length q);
  seq ← UBInt_build 4 (Z.of_N (q_seq q));
  module_id ← UBInt_build 4 (Z.of_N (q_module_id q));
  addr ← UBInt_build 6 (Z.of_N (q_addr q));
  hwaddr ← UBInt_build 6 (Z.of_N (q_hwaddr q));
  channel ← UBInt_build 1 (q_channel q);
  band ← UBInt_build 1 (q_band q);
  limit ← SBInt_build 2 (q_limit q);
  period ← UBInt_build 2 (q_period q);
  Some (version ++ type ++ length ++ seq ++ module_id ++ addr ++ hwaddr
        ++ channel ++ band ++ limit ++ period).

(** Parsing gives the fields of the struct; the attribute [wtp] is not
    among them and is taken from [wtp]. *)
Definition ADD_SUMMARY_parse (wtp : EtherAddress) (bs : list Z)
  : option (Request * list Z) :=
  '(version, bs) ← UBInt_parse 1 bs;
  '(type, bs) ← UBInt_parse 1 bs;
  '(length, bs) ← UBInt_parse 2 bs;
  '(seq, bs) ← UBInt_parse 4 bs;
  '(module_id, bs) ← UBInt_parse 4 bs;
  '(addr, bs) ← UBInt_parse 6 bs;
  '(hwaddr, bs) ← UBInt_parse 6 bs;
  '(channel, bs) ← UBInt_parse 1 bs;
  '(band, bs) ← UBInt_parse 1 bs;
  '(limit, bs) ← SBInt_parse 2 bs;
  '(period, bs) ← UBInt_parse 2 bs;
  Some ({| q_version := version; q_type := type; q_length := length;
           q_seq := Z.to_N seq; q_module_id := Z.to_N module_id;
           q_limit := limit; q_period := period; q_wtp := wtp;
           q_addr := Z.to_N addr; q_hwaddr := Z.to_N hwaddr;
           q_channel := channel; q_band := band |}, bs).

(** [SUMMARY_ENTRY]: addr, tsft, seq, rssi, rate, type, subtype, length. *)
Definition SUMMARY_ENTRY_build (e : SUMMARY_ENTRY) : option (list Z) :=
  addr ← UBInt_build 6 (Z.of_N (e_addr e));
  tsft ← UBInt_build 8 (e_tsft e);
  seq ← UBInt_build 2 (e_seq e);
  rssi ← SBInt_build 1 (e_rssi e);
  rate ← UBInt_build 1 (e_rate e);
  type ← UBInt_build 1 (e_type e);
  subtype ← UBInt_build 1 (e_subtype e);
  length ← UBInt_build 4 (e_length e);
  Some (addr ++ tsft ++ seq ++ rssi ++ rate ++ type ++ subtype ++ length).

Definition SUMMARY_ENTRY_parse (bs : list Z)
  : option (SUMMARY_ENTRY * list Z) :=
  '(addr, bs) ← UBInt_parse 6 bs;
  '(tsft, bs) ← UBInt_parse 8 bs;
  '(seq, bs) ← UBInt_parse 2 bs;
  '(rssi, bs) ← SBInt_parse 1 bs;
  '(rate, bs) ← UBInt_parse 1 bs;
  '(type, bs) ← UBInt_parse 1 bs;
  '(subtype, bs) ← UBInt_parse 1 bs;
  '(length, bs) ← UBInt_parse 4 bs;
  Some ({| e_addr := Z.to_N addr; e_tsft := tsft; e_seq := seq;
           e_rssi := rssi; e_rate := rate; e_type := type;
           e_subtype := subtype; e_length := length |}, bs).

(** [Array(count, SUMMARY_ENTRY)]: [count] entries in a row; building
    fails unless the array has [count] entries. *)
Fixpoint entries_build (es : list SUMMARY_ENTRY) : option (list Z) :=
  match es with
  | [] => Some []
  | e :: es' =>
      first ← SUMMARY_ENTRY_build e;
      others ← entries_build es';
      Some (first ++ others)
  end.

Fixpoint entries_parse (count : nat) (bs : list Z)
  : option (list SUMMARY_ENTRY * list Z) :=
  match count with
  | O => Some ([], bs)
  | S count' =>
      '(e, bs) ← SUMMARY_ENTRY_parse bs;
      '(es, bs) ← entries_parse count' bs;
      Some (e :: es, bs)
  end.

(** The container of a response ([SUMMARY_TRIGGER]). *)
Record Response : Type := {
  s_version : Z;
  s_type : Z;
  s_length : Z;
  s_seq : Z;
  s_module_id : Z;
  s_wtp : EtherAddress;
  s_nb_entries : Z;
  s_frames : list SUMMARY_ENTRY
}.

Definition SUMMARY_TRIGGER_build (r : Response) : option (list Z) :=
  version ← UBInt_build 1 (s_version r);
  type ← UBInt_build 1 (s_type r);
  length ← UBInt_build 2 (s_length r);
  seq ← UBInt_build 4 (s_seq r);
  module_id ← UBInt_build 4 (s_module_id r);
  wtp ← UBInt_build 6 (Z.of_N (s_wtp r));
  nb_entries ← UBInt_build 2 (s_nb_entries r);
  frames ← (if decide (Z.of_nat (List.length (s_frames r)) = s_nb_entries r)
            then entries_build (s_frames r) else None);
  Some (version ++ type ++ length ++ seq ++ module_id ++ wtp ++ nb_entries
        ++ frames).

Definition SUMMARY_TRIGGER_parse (bs : list Z) : option (Response * list Z) :=
  '(version, bs) ← UBInt_parse 1 bs;
  '(type, bs) ← UBInt_parse 1 bs;
  '(length, bs) ← UBInt_parse 2 bs;
  '(seq, bs) ← UBInt_parse 4 bs;
  '(module_id, bs) ← UBInt_parse 4 bs;
  '(wtp, bs) ← UBInt_parse 6 bs;
  '(nb_entries, bs) ← UBInt_parse 2 bs;
  '(frames, bs) ← entries_parse (Z.to_nat nb_entries) bs;
  Some ({| s_version := version; s_type := type; s_length := length;
           s_seq := seq; s_module_id := module_id; s_wtp := Z.to_N wtp;
           s_nb_entries := nb_entries; s_frames := frames |}, bs).

Section methods.
Context {ext : Externals}.

(** [Summary.block = value]. *)
Definition getitem (d : gmap string Scalar) (k : string) : M State Scalar :=
  match d !! k with
  | Some v => ret v
  | None => raise (KeyError (KStr k))
  end.

Definition block_set (value : PyVal) : M State unit :=
  match value with
  | VBlock b => update (with_block (Some b))
  | VDict d =>
      let* v := getitem d "wtp" in
      let* a := lift (EtherAddress_new v) in
      let* st := get in
      if decide (a ∉ runtime_wtps st) then raise (KeyError (KAddr a))
      else if decide (d !! "hwaddr" = None) then
        raise (ValueError "Missing field: hwaddr")
      else if decide (d !! "channel" = None) then
        raise (ValueError "Missing field: channel")
      else if decide (d !! "band" = None) then
        raise (ValueError "Missing field: band")
      else if decide (d !! "wtp" = None) then
        raise (ValueError "Missing field: wtp")
      else
        let* hv := getitem d "hwaddr" in
        let* hw := lift (EtherAddress_new hv) in
        let* cv := getitem d "channel" in
        let* ch := lift (py_int cv) in
        let* bv := getitem d "band" in
        let* bd := lift (py_int bv) in
        let block :=
          {| radio := a; hwaddr := hw; channel := ch; band := bd |} in
        let incoming : ResourcePool := {[ block ]} in
        let matched := pool_and (wtp_supports (wtps st a)) incoming in
        if negb (pool_truthy matched) then
          raise (ValueError "No block specified")
        else if decide (1 < size matched)%nat then
          raise (ValueError "More than one block specified")
        else
          match pool_pop matched with
          | None => raise (KeyError (KStr "pop from an empty set"))
          | Some (b, _) => update (with_block (Some b))
          end
  | _ => ret tt
  end.

(** The container [unload] builds and writes as [DEL_SUMMARY]. *)
Definition del_summary (seq module_id : N) : Container :=
  {| c_version := PT_VERSION; c_type := PT_DEL_SUMMARY; c_length := 12;
     c_seq := seq; c_module_id := module_id |}.

(** [Summary.unload()]; [DEL_SUMMARY.build] raises the [FieldError] of
    [construct] for a container that does not fit the struct. *)
Definition unload : M State unit :=
  let* m := this in
  remove_module (module_id m) ;;
  match _block m with
  | None => raise (AttributeError "radio")
  | Some block =>
      let w := radio block in
      let* st := get in
      if negb (wtp_connected (wtps st w)) then ret tt
      else
        let* seq := seq_read w in
        match DEL_SUMMARY_build (del_summary seq (module_id m)) with
        | None => raise FieldError
        | Some msg => call (stream_write w msg)
        end
  end.

Definition pt_type (code : Z) : string :=
  if decide (code = 0x00) then "MNGT"
  else if decide (code = 0x04) then "CTRL"
  else if decide (code = 0x08) then "DATA"
  else "UNKN".

Definition pt_subtype (code : Z) : PyVal :=
  if decide (code = 0x00) then VStr "ASSOC_REQ"
  else if decide (code = 0x10) then VStr "ASSOC_RESP"
  else if decide (code = 0x20) then VStr "AUTH_REQ"
  else if decide (code = 0x30) then VStr "AUTH_RESP"
  else if decide (code = 0x80) then VStr "BEACON"
  else VInt code.

(** The body of the loop of [handle_response] for one entry. *)
Definition decode_frame (block : ResourceBlock) (recv : SUMMARY_ENTRY)
  : Frame :=
  let rate :=
    if decide (band block = BT_L20) then NFloat (Qmake (e_rate recv) 2)
    else NInt (e_rate recv) in
  {| f_tsft := e_tsft recv; f_seq := e_seq recv; f_rssi := e_rssi recv;
     f_rate := rate; f_type := pt_type (e_type recv);
     f_subtype := pt_subtype (e_subtype recv);
     f_length := e_length recv |}.

(** [Summary.handle_response(response)]; the argument stands for
    [response.frames]. *)
Definition handle_response (response : list SUMMARY_ENTRY) : M State unit :=
  let* st := get in
  let m := self st in
  match tenants st !! tenant_id m with
  | None => unload
  | Some tenant =>
      match _block m with
      | None => raise (AttributeError "radio")
      | Some block =>
          if decide (radio block ∉ tenant) then unload
          else
            update (with_frames []) ;;
            for_each response
              (λ recv,
                 let* m := this in
                 update (with_frames (frames m ++ [decode_frame block recv]))) ;;
            call (handle_callback (module_id m))
      end
  end.

(** [block in wtp.supports] for the block of a module, which is [None]
    until it is set. *)
Definition bound_to (supported : ResourcePool) (m : Summary) : Prop :=
  match _block m with
  | None => False
  | Some block => block ∈ supported
  end.

#[global] Instance bound_to_dec supported m : Decision (bound_to supported m).
Proof. unfold bound_to. destruct (_block m); apply _. Defined.

(** [SummaryWorker.handle_bye(wtp)]. *)
Definition handle_bye (wtp : EtherAddress) : M State unit :=
  let* st := get in
  let to_be_removed :=
    (filter (λ kv, bound_to (wtp_supports (wtps st wtp)) kv.2)
            (map_to_list (modules st))).*1 in
  for_each to_be_removed remove_module.

(** *** The remaining members of [Summary] *)

Definition with_addr (v : option EtherAddress) (m : Summary) : Summary :=
  {| module_id := module_id m; module_type := module_type m;
     tenant_id := tenant_id m; _addr := v; _block := _block m;
     _limit := _limit m; _period := _period m; frames := frames m |}.

Definition with_period (v : Z) (m : Summary) : Summary :=
  {| module_id := module_id m; module_type := module_type m;
     tenant_id := tenant_id m; _addr := _addr m; _block := _block m;
     _limit := _limit m; _period := v; frames := frames m |}.

Definition with_limit (v : Z) (m : Summary) : Summary :=
  {| module_id := module_id m; module_type := module_type m;
     tenant_id := tenant_id m; _addr := _addr m; _block := _block m;
     _limit := v; _period := _period m; frames := frames m |}.

(** [Summary()]: the fields [Summary.__init__] sets, on top of the three
    that stand for what [Module.__init__] and the worker set. *)
Definition Summary_new (module_id : N) (module_type : string) (tenant_id : N)
  : Summary :=
  {| module_id := module_id; module_type := module_type;
     tenant_id := tenant_id; _addr := None; _block := None;
     _limit := -1; _period := 2000; frames := [] |}.

(** [Summary.addr = addr]. *)
Definition addr_set (addr : Scalar) : M State unit :=
  let* a := lift (EtherAddress_new addr) in
  update (with_addr (Some a)).

(** [Summary.period = value] and [Summary.limit = value]; both raise with
    the same text, [%u] printing the integer in decimal. *)
Definition period_set (value : Z) : M State unit :=
  if decide (value < 1000) then
    raise (ValueError ("Invalid limit value (" +:+ pretty value +:+ ")"))
  else update (with_period value).

Definition limit_set (value : Z) : M State unit :=
  if decide (value < -1) then
    raise (ValueError ("Invalid limit value (" +:+ pretty value +:+ ")"))
  else update (with_limit value).

(** The container [run_once] builds for the module [m], bound to [block],
    with the sequence number [seq] and the address [a]. *)
Definition add_summary (m : Summary) (block : ResourceBlock) (seq : N)
    (a : EtherAddress) : Request :=
  {| q_version := PT_VERSION; q_type := PT_ADD_SUMMARY; q_length := 30;
     q_seq := seq; q_module_id := module_id m; q_limit := _limit m;
     q_period := _period m; q_wtp := radio block; q_addr := a;
     q_hwaddr := hwaddr block; q_channel := channel block;
     q_band := band block |}.

(** The state of a tick: that of the module, and the requests written to
    the streams of the access points, oldest first, each as the bytes
    [ADD_SUMMARY] built.  They are kept apart from the trace of the module
    state, whose stream messages are the teardown messages. *)
Record TickState : Type := {
  base : State;
  written : list (EtherAddress * list Z)
}.

(** How a tick ends: it returns; it raises an exception of the method
    monad, among them the [FieldError] of [ADD_SUMMARY.build] for a
    container that does not fit the struct and the [AttributeError] of
    [wtp.connection.stream] when there is no connection; or the write
    raises the error of the stream, because the stream is closed. *)
Inductive Tick : Type :=
| Returned
| Raised (e : Exn)
| StreamError.

Definition on_base {A} (c : M State A) : M TickState A :=
  λ ts, ((c (base ts)).1,
         {| base := (c (base ts)).2; written := written ts |}).

(** [Summary.run_once()] up to its container: [None] when the module was
    unloaded instead. *)
Definition run_once_container
  : M TickState (option (ResourceBlock * Request)) :=
  let* ts := get in
  let m := self (base ts) in
  match tenants (base ts) !! tenant_id m with
  | None => on_base unload ;; ret None
  | Some tenant =>
      match _block m with
      | None => raise (AttributeError "radio")
      | Some block =>
          let w := radio block in
          if decide (w ∉ tenant) then on_base unload ;; ret None
          else
            let* seq := on_base (seq_read w) in
            match _addr m with
            | None => raise (AttributeError "to_raw")
            | Some a => ret (Some (block, add_summary m block seq a))
            end
      end
  end.

(** [Summary.run_once()]: the container is built as [ADD_SUMMARY] and the
    bytes are written to the stream of the access point. *)
Definition run_once (ts : TickState) : Tick * TickState :=
  match run_once_container ts with
  | (Raise e, ts') => (Raised e, ts')
  | (Return None, ts') => (Returned, ts')
  | (Return (Some (block, req)), ts') =>
      match ADD_SUMMARY_build req with
      | None => (Raised FieldError, ts')
      | Some msg =>
          match wtp_connection (wtps (base ts') (radio block)) with
          | NoConnection => (Raised (AttributeError "stream"), ts')
          | StreamClosed => (StreamError, ts')
          | StreamOpen =>
              (Returned,
               {| base := base ts';
                  written := written ts' ++ [(radio block, msg)] |})
          end
      end
  end.

End methods.

End summary.

(** ** Sample data *)

(** Conversions that accept the values already of the right type, pools
    that match by channel and band, and a worker whose [remove_module] does
    with an id that is not registered what [missing] says. *)
Definition externals_with (missing : N → Outcome unit) : Externals :=
  {| PT_VERSION := 0;
     BT_L20 := 0;
     EtherAddress_new :=
       λ v, match v with
            | SAddr a => Return a
            | SStr _ => Raise (ValueError "Invalid address")
            | SInt _ => Raise (TypeError "Invalid address")
            end;
     py_int :=
       λ v, match v with
            | SInt z => Return z
            | SStr _ => Raise (ValueError "invalid literal for int()")
            | SAddr _ => Raise (TypeError "int() argument")
            end;
     block_match :=
       λ x y, bool_decide (channel x = channel y ∧ band x = band y);
     remove_missing := missing |}.

(** The worker that lets such an id pass, and the one that raises the
    KeyError of the registry. *)
Definition sample_externals : Externals := externals_with (λ _, Return tt).


(** Two blocks of access point 1 and two blocks of access point 2. *)
Definition block_a : ResourceBlock :=
  {| radio := 1%N; hwaddr := 10%N; channel := 36; band := 0 |}.
Definition block_b : ResourceBlock :=
  {| radio := 1%N; hwaddr := 11%N; channel := 6; band := 0 |}.
Definition block_c : ResourceBlock :=
  {| radio := 2%N; hwaddr := 20%N; channel := 36; band := 0 |}.

Definition block_d : ResourceBlock :=
  {| radio := 2%N; hwaddr := 21%N; channel := 6; band := 0 |}.

(** Access point 1 is connected and reports the switch port the virtual
    ports are built on; access point 2 is connected and reports no switch
    port named [empower0]; access point 4 has a connection whose stream is
    closed; the others have no connection. *)
Definition sample_wtps (a : EtherAddress) : WTP :=
  if decide (a = 1%N) then
    {| wtp_ports := [ {| port_id := 7%N; port_hwaddr := 70%N; iface := "empower0" |} ];
       wtp_supports := {[ block_a; block_b ]};
       wtp_connection := StreamOpen; wtp_seq := 0%N |}
  else if decide (a = 2%N) then
    {| wtp_ports := [ {| port_id := 1%N; port_hwaddr := 80%N; iface := "eth0" |} ];
       wtp_supports := {[ block_c; block_d ]};
       wtp_connection := StreamOpen; wtp_seq := 0%N |}
  else if decide (a = 4%N) then
    {| wtp_ports := []; wtp_supports := ∅;
       wtp_connection := StreamClosed; wtp_seq := 0%N |}
  else
    {| wtp_ports := []; wtp_supports := ∅;
       wtp_connection := NoConnection; wtp_seq := 0%N |}.

(** A summary module of tenant 5 bound to [block_a], registered under its
    id 3 next to a module bound to [block_c]. *)
Definition sample_summary : summary.Summary :=
  {| summary.module_id := 3%N; summary.module_type := "summary";
     summary.tenant_id := 5%N; summary._addr := Some 99%N;
     summary._block := Some block_a; summary._limit := -1;
     summary._period := 2000; summary.frames := [] |}.

Definition other_summary : summary.Summary :=
  {| summary.module_id := 4%N; summary.module_type := "summary";
     summary.tenant_id := 5%N; summary._addr := Some 98%N;
     summary._block := Some block_c; summary._limit := -1;
     summary._period := 2000; summary.frames := [] |}.

Definition sample_summary_state : summary.State :=
  {| summary.self := sample_summary;
     summary.modules := {[ 3%N := sample_summary; 4%N := other_summary ]};
     summary.tenants := {[ 5%N := {[ 1%N; 2%N ]} ]};
     summary.runtime_wtps := {[ 1%N; 2%N ]};
     summary.wtps := sample_wtps;
     summary.calls := [] |}.

(** The same state with a module that has no block yet. *)
Definition unset_summary_state : summary.State :=
  {| summary.self := summary.with_block None sample_summary;
     summary.modules := {[ 4%N := other_summary ]};
     summary.tenants := {[ 5%N := {[ 1%N; 2%N ]} ]};
     summary.runtime_wtps := {[ 1%N; 2%N ]};
     summary.wtps := sample_wtps;
     summary.calls := [] |}.

(** A data frame whose subtype code is zero. *)
Definition data_entry : summary.SUMMARY_ENTRY :=
  {| summary.e_addr := 99%N; summary.e_tsft := 1000; summary.e_seq := 1;
     summary.e_rssi := -40; summary.e_rate := 4; summary.e_type := 0x08;
     summary.e_subtype := 0x00; summary.e_length := 64 |}.

(** A well-formed descriptor of [block_a], and the same without its [wtp]. *)
Definition descriptor_a : gmap string Scalar :=
  {[ "wtp" := SAddr 1%N; "hwaddr" := SAddr 10%N;
     "channel" := SInt 36; "band" := SInt 0 ]}.

Definition descriptor_without_wtp : gmap string Scalar :=
  {[ "hwaddr" := SAddr 10%N; "channel" := SInt 36; "band" := SInt 0 ]}.

(** An LVAP of station 99, bound to nothing yet. *)
Definition unbound_lvap : lvap.LVAP :=
  {| lvap.addr := 99%N; lvap.bssid := 199%N; lvap.supports := ∅;
     lvap.authentication_state := false; lvap.association_state := false;
     lvap._ssids := []; lvap._encap := 0%N; lvap._assoc_id := 0;
     lvap._ssid := None; lvap._downlink := ∅; lvap._uplink := ∅;
     lvap.ports := ∅ |}.

(** The same LVAP with [block_a] as its downlink and [block_b] as uplink. *)
Definition bound_lvap : lvap.LVAP :=
  lvap.with_uplink {[ block_b := lvap.RadioPort_new unbound_lvap block_b ]}
    (lvap.with_downlink {[ block_a := lvap.RadioPort_new unbound_lvap block_a ]}
       unbound_lvap).

(** The same LVAP with [block_c], whose access point reports no [empower0]
    port, as its downlink. *)
Definition lvap_on_c : lvap.LVAP :=
  lvap.with_downlink {[ block_c := lvap.RadioPort_new unbound_lvap block_c ]}
    unbound_lvap.

(** Every pool object of the callers holds the given pool. *)
Definition lvap_state (l : lvap.LVAP) (p : ResourcePool) : lvap.State :=
  {| lvap.self := l; lvap.wtps := sample_wtps; lvap.heap := λ _, p;
     lvap.calls := [] |}.

(** A tick of the sample module with nothing written yet, and the bytes of
    its first two requests. *)
Definition sample_tick : summary.TickState :=
  {| summary.base := sample_summary_state; summary.written := [] |}.

Definition first_request : list Z :=
  [0; 34; 0; 30; 0; 0; 0; 1; 0; 0; 0; 3; 0; 0; 0; 0; 0; 99;
   0; 0; 0; 0; 0; 10; 36; 0; 255; 255; 7; 208].

Definition second_request : list Z :=
  [0; 34; 0; 30; 0; 0; 0; 2; 0; 0; 0; 3; 0; 0; 0; 0; 0; 99;
   0; 0; 0; 0; 0; 10; 36; 0; 255; 255; 7; 208].

(** A tick of a module whose tenant is not there. *)
Definition stale_tick : summary.TickState :=
  {| summary.base :=
       {| summary.self := summary.with_block (Some block_a)
                            (summary.Summary_new 3%N "summary" 6%N);
          summary.modules := summary.modules sample_summary_state;
          summary.tenants := summary.tenants sample_summary_state;
          summary.runtime_wtps := summary.runtime_wtps sample_summary_state;
          summary.wtps := sample_wtps; summary.calls := [] |};
     summary.written := [] |}.

(** A block of access point 3, which has no connection, and a tick of a
    module bound to it. *)
Definition block_e : ResourceBlock :=
  {| radio := 3%N; hwaddr := 30%N; channel := 1; band := 0 |}.

Definition offline_tick : summary.TickState :=
  {| summary.base :=
       {| summary.self := summary.with_block (Some block_e) sample_summary;
          summary.modules := summary.modules sample_summary_state;
          summary.tenants := {[ 5%N := {[ 3%N ]} ]};
          summary.runtime_wtps := summary.runtime_wtps sample_summary_state;
          summary.wtps := sample_wtps; summary.calls := [] |};
     summary.written := [] |}.

(** The first two teardown messages of the sample module, and a response
    with one entry. *)
Definition teardown_bytes : list Z := [0; 36; 0; 12; 0; 0; 0; 1; 0; 0; 0; 3].


Definition sample_response : summary.Response :=
  {| summary.s_version := 0; summary.s_type := 0x23; summary.s_length := 44;
     summary.s_seq := 7; summary.s_module_id := 3; summary.s_wtp := 1%N;
     summary.s_nb_entries := 1; summary.s_frames := [data_entry] |}.

Definition response_bytes : list Z :=
  [0; 35; 0; 44; 0; 0; 0; 7; 0; 0; 0; 3; 0; 0; 0; 0; 0; 1; 0; 1;
   0; 0; 0; 0; 0; 99; 0; 0; 0; 0; 0; 0; 3; 232; 0; 1; 216; 4; 8; 0;
   0; 0; 0; 64].

(** * Properties *)

(** ** Dicts and sets *)

Section containers.
Context {K V : Type} `{Countable K}.

(** Deleting a list of keys one after the other. *)
Lemma lookup_delete_list (m : gmap K V) (ks : list K) (k : K) :
  foldl (λ m k, delete k m) m ks !! k
  = if decide (k ∈ ks) then None else m !! k.
Proof.
  revert m. induction ks as [|k' ks IH]; intros m; cbn.
  - destruct (decide (k ∈ [])) as [Hin|]; [by apply not_elem_of_nil in Hin|done].
  - rewrite IH. destruct (decide (k ∈ ks)) as [Hin|Hin].
    + rewrite decide_True; [done|]. by apply list_elem_of_further.
    + destruct (decide (k = k')) as [->|Hne].
      * rewrite lookup_delete_eq, decide_True; [done|]. apply list_elem_of_here.
      * rewrite lookup_delete_ne by done.
        rewrite decide_False; [done|].
        intros [?|?]%elem_of_cons; done.
Qed.

Lemma elem_of_keys (m : gmap K V) (k : K) : k ∈ keys m ↔ is_Some (m !! k).
Proof.
  unfold keys. rewrite list_elem_of_fmap. split.
  - intros ([k' v] & -> & Hin). apply elem_of_map_to_list in Hin. eauto.
  - intros [v Hv]. exists (k, v). split; [done|]. by apply elem_of_map_to_list.
Qed.

(** Deleting every key of a dict empties it. *)
Lemma delete_keys_empty (m : gmap K V) :
  foldl (λ m k, delete k m) m (keys m) = ∅.
Proof.
  apply map_eq. intros k. rewrite lookup_delete_list, lookup_empty.
  destruct (decide (k ∈ keys m)) as [|Hn]; [done|].
  destruct (m !! k) eqn:Hk; [|done].
  exfalso. apply Hn, elem_of_keys. eauto.
Qed.

Lemma list_to_set_keys (m : gmap K V) : list_to_set (keys m) = dom m.
Proof.
  apply set_eq. intros k.
  by rewrite elem_of_list_to_set, elem_of_keys, elem_of_dom.
Qed.

Lemma keys_nil (m : gmap K V) : keys m = [] ↔ m = ∅.
Proof.
  unfold keys. split.
  - intros Hk. apply fmap_nil_inv in Hk. by apply map_to_list_empty_iff.
  - intros ->. by rewrite map_to_list_empty.
Qed.
End containers.

(** ** Pools *)

Section pools.
Context {ext : Externals}.

(** The intersection holds the blocks of the left pool that match a block
    of the right pool. *)
Lemma elem_of_pool_and x (a b : ResourcePool) :
  x ∈ pool_and a b ↔ x ∈ a ∧ ∃ y, y ∈ b ∧ block_match x y.
Proof. unfold pool_and. by rewrite elem_of_filter, (comm and). Qed.

Lemma elem_of_pool_and_singleton x (a : ResourcePool) y :
  x ∈ pool_and a {[ y ]} ↔ x ∈ a ∧ block_match x y.
Proof.
  rewrite elem_of_pool_and. split.
  - intros (Hx & y' & Hy & Hm). apply elem_of_singleton in Hy as ->. done.
  - intros [Hx Hm]. split; [done|]. exists y. split; [|done].
    by apply elem_of_singleton.
Qed.

Lemma pool_and_subseteq (a b : ResourcePool) : pool_and a b ⊆ a.
Proof. intros x Hx. by apply elem_of_pool_and in Hx as [Hx _]. Qed.


End pools.

(** ** The wire formats *)

Module wire_theory.
Import summary.

Lemma be_bytes_length n z : length (be_bytes n z) = n.
Proof.
  revert z. induction n as [|n IH]; intros z; cbn; [done|].
  rewrite length_app, IH. cbn. lia.
Qed.

Lemma be_value_snoc bs b : be_value (bs ++ [b]) = be_value bs * 256 + b.
Proof. unfold be_value. by rewrite foldl_app. Qed.

Lemma be_value_bytes n z : be_value (be_bytes n z) = z mod 256 ^ Z.of_nat n.
Proof.
  revert z. induction n as [|n IH]; intros z.
  - cbn. by rewrite Z.mod_1_r.
  - cbn [be_bytes]. rewrite be_value_snoc, IH.
    rewrite Nat2Z.inj_succ, Z.pow_succ_r by lia.
    rewrite Z.rem_mul_r by lia. lia.
Qed.

Lemma take_field_app n field rest :
  length field = n → take_field n (field ++ rest) = Some (field, rest).
Proof.
  intros <-. unfold take_field.
  rewrite decide_True by (rewrite length_app; lia).
  by rewrite take_app_length, drop_app_length.
Qed.

Lemma take_field_short n bs :
  (length bs < n)%nat → take_field n bs = None.
Proof. intros H. unfold take_field. by rewrite decide_False by lia. Qed.

Lemma UBInt_parse_build n z field rest :
  UBInt_build n z = Some field →
  UBInt_parse n (field ++ rest) = Some (z, rest).
Proof.
  unfold UBInt_build, UBInt_parse. destruct (decide _) as [Hz|]; [|done].
  intros [= <-]. rewrite take_field_app by apply be_bytes_length.
  by rewrite be_value_bytes, Z.mod_small.
Qed.

Lemma pow_256_even n : (0 < n)%nat → 256 ^ Z.of_nat n = 2 * (256 ^ Z.of_nat n / 2).
Proof.
  intros Hn. destruct n as [|n]; [lia|].
  rewrite Nat2Z.inj_succ, Z.pow_succ_r by lia.
  replace (256 * 256 ^ Z.of_nat n) with (128 * 256 ^ Z.of_nat n * 2) by lia.
  rewrite Z.div_mul by lia. lia.
Qed.

Lemma SBInt_parse_build n z field rest :
  SBInt_build n z = Some field →
  SBInt_parse n (field ++ rest) = Some (z, rest).
Proof.
  unfold SBInt_build, SBInt_parse. destruct (decide _) as [Hz|]; [|done].
  intros [= <-]. rewrite take_field_app by apply be_bytes_length.
  cbn zeta. rewrite be_value_bytes.
  assert (Hn : (0 < n)%nat) by (destruct n; [change (256 ^ Z.of_nat 0 / 2) with 0 in Hz|]; lia).
  pose proof (pow_256_even n Hn) as He.
  rewrite Z.mod_mod by lia.
  destruct (Z_lt_le_dec z 0) as [Hneg|Hpos].
  - rewrite <- (Z.mod_add z 1) by lia.
    rewrite Z.mod_small by lia.
    rewrite decide_False by lia. do 2 f_equal. lia.
  - rewrite Z.mod_small by lia. by rewrite decide_True by lia.
Qed.

Lemma UBInt_build_length n z field :
  UBInt_build n z = Some field → length field = n.
Proof.
  unfold UBInt_build. destruct (decide _); [|done].
  intros [= <-]. apply be_bytes_length.
Qed.

Lemma SBInt_build_length n z field :
  SBInt_build n z = Some field → length field = n.
Proof.
  unfold SBInt_build. destruct (decide _); [|done].
  intros [= <-]. apply be_bytes_length.
Qed.

Lemma UBInt_build_Some n z :
  0 ≤ z < 256 ^ Z.of_nat n → UBInt_build n z = Some (be_bytes n z).
Proof. intros H. unfold UBInt_build. by rewrite decide_True. Qed.

Lemma UBInt_build_None n z :
  ¬ (0 ≤ z < 256 ^ Z.of_nat n) → UBInt_build n z = None.
Proof. intros H. unfold UBInt_build. by rewrite decide_False. Qed.


(** A field that builds is parsed back off the front of what follows. *)
Ltac built H :=
  repeat (apply bind_Some in H as (? & ? & H)).

Ltac parsed :=
  rewrite <- ?app_assoc;
  repeat (first [erewrite UBInt_parse_build by eassumption
                |erewrite SBInt_parse_build by eassumption];
          cbn [mbind option_bind]).

Ltac measured :=
  rewrite ?length_app;
  repeat match goal with
         | H : UBInt_build _ _ = Some _ |- _ =>
             apply UBInt_build_length in H; rewrite H; clear H
         | H : SBInt_build _ _ = Some _ |- _ =>
             apply SBInt_build_length in H; rewrite H; clear H
         end.

Lemma DEL_SUMMARY_parse_build c bs rest :
  DEL_SUMMARY_build c = Some bs →
  DEL_SUMMARY_parse (bs ++ rest) = Some (c, rest).
Proof.
  intros H. unfold DEL_SUMMARY_build in H. built H. injection H as <-.
  unfold DEL_SUMMARY_parse. parsed. rewrite !N2Z.id. by destruct c.
Qed.

Lemma DEL_SUMMARY_build_length c bs :
  DEL_SUMMARY_build c = Some bs → length bs = 12%nat.
Proof.
  intros H. unfold DEL_SUMMARY_build in H. built H. injection H as <-.
  by measured.
Qed.

Lemma ADD_SUMMARY_parse_build q bs rest :
  ADD_SUMMARY_build q = Some bs →
  ADD_SUMMARY_parse (q_wtp q) (bs ++ rest) = Some (q, rest).
Proof.
  intros H. unfold ADD_SUMMARY_build in H. built H. injection H as <-.
  unfold ADD_SUMMARY_parse. parsed. rewrite !N2Z.id. by destruct q.
Qed.

Lemma ADD_SUMMARY_build_length q bs :
  ADD_SUMMARY_build q = Some bs → length bs = 30%nat.
Proof.
  intros H. unfold ADD_SUMMARY_build in H. built H. injection H as <-.
  by measured.
Qed.

Lemma SUMMARY_ENTRY_parse_build e bs rest :
  SUMMARY_ENTRY_build e = Some bs →
  SUMMARY_ENTRY_parse (bs ++ rest) = Some (e, rest).
Proof.
  intros H. unfold SUMMARY_ENTRY_build in H. built H. injection H as <-.
  unfold SUMMARY_ENTRY_parse. parsed. rewrite !N2Z.id. by destruct e.
Qed.

Lemma SUMMARY_ENTRY_build_length e bs :
  SUMMARY_ENTRY_build e = Some bs → length bs = 24%nat.
Proof.
  intros H. unfold SUMMARY_ENTRY_build in H. built H. injection H as <-.
  by measured.
Qed.

Lemma entries_parse_build es bs rest :
  entries_build es = Some bs →
  entries_parse (length es) (bs ++ rest) = Some (es, rest).
Proof.
  revert bs. induction es as [|e es IH]; intros bs H; cbn in H.
  - by injection H as <-.
  - apply bind_Some in H as (first & He & H).
    apply bind_Some in H as (others & Hes & H). injection H as <-.
    cbn [length entries_parse]. rewrite <- app_assoc.
    rewrite (SUMMARY_ENTRY_parse_build _ _ _ He). cbn [mbind option_bind].
    by rewrite (IH _ Hes).
Qed.

Lemma entries_build_length es bs :
  entries_build es = Some bs → length bs = (24 * length es)%nat.
Proof.
  revert bs. induction es as [|e es IH]; intros bs H; cbn in H.
  - by injection H as <-.
  - apply bind_Some in H as (first & He & H).
    apply bind_Some in H as (others & Hes & H). injection H as <-.
    rewrite length_app, (SUMMARY_ENTRY_build_length _ _ He), (IH _ Hes).
    cbn [length]. lia.
Qed.

Lemma UBInt_build_range n z field :
  UBInt_build n z = Some field → 0 ≤ z < 256 ^ Z.of_nat n.
Proof. unfold UBInt_build. by case_decide. Qed.

Lemma SBInt_build_range n z field :
  SBInt_build n z = Some field →
  - (256 ^ Z.of_nat n / 2) ≤ z < 256 ^ Z.of_nat n / 2.
Proof. unfold SBInt_build. by case_decide. Qed.

Lemma SBInt_build_Some n z :
  - (256 ^ Z.of_nat n / 2) ≤ z < 256 ^ Z.of_nat n / 2 →
  SBInt_build n z = Some (be_bytes n (z mod 256 ^ Z.of_nat n)).
Proof. intros H. unfold SBInt_build. by rewrite decide_True. Qed.

(** The ranges of the widths at hand. *)
Ltac widths :=
  change (256 ^ Z.of_nat 1) with 256 in *;
  change (256 ^ Z.of_nat 2) with 65536 in *;
  change (256 ^ Z.of_nat 4) with 4294967296 in *;
  change (256 ^ Z.of_nat 6) with 281474976710656 in *;
  change (256 ^ Z.of_nat 8) with 18446744073709551616 in *;
  change (65536 `div` 2) with 32768 in *;
  change (256 `div` 2) with 128 in *.

Ltac ranged :=
  repeat match goal with
         | H : UBInt_build _ _ = Some _ |- _ => apply UBInt_build_range in H
         | H : SBInt_build _ _ = Some _ |- _ => apply SBInt_build_range in H
         end;
  widths.

(** The requests [ADD_SUMMARY] builds are those whose fields fit. *)
Lemma ADD_SUMMARY_build_fits q :
  is_Some (ADD_SUMMARY_build q)
  ↔ 0 ≤ q_version q < 256 ∧ 0 ≤ q_type q < 256 ∧ 0 ≤ q_length q < 65536 ∧
    (q_seq q < 4294967296)%N ∧ (q_module_id q < 4294967296)%N ∧
    (q_addr q < 281474976710656)%N ∧ (q_hwaddr q < 281474976710656)%N ∧
    0 ≤ q_channel q < 256 ∧ 0 ≤ q_band q < 256 ∧
    -32768 ≤ q_limit q < 32768 ∧ 0 ≤ q_period q < 65536.
Proof.
  split.
  - intros [bs H]. unfold ADD_SUMMARY_build in H. built H. ranged.
    split_and!; lia.
  - intros H. unfold ADD_SUMMARY_build.
    rewrite !UBInt_build_Some by (widths; lia). cbn [mbind option_bind].
    rewrite SBInt_build_Some by (widths; lia). by cbn [mbind option_bind].
Qed.

End wire_theory.

(** ** The summary trigger *)

Module summary_theory.
Import summary wire_theory.

Section proofs.
Context {ext : Externals}.

(** The loop of [handle_response] appends one decoded frame per entry. *)
Lemma decode_loop block response st :
  for_each response
    (λ recv,
       let* m := this in
       update (with_frames (frames m ++ [decode_frame block recv]))) st
  = (Return tt,
     {| self := with_frames
                  (frames (self st) ++ (decode_frame block <$> response))
                  (self st);
        modules := modules st; tenants := tenants st;
        runtime_wtps := runtime_wtps st; wtps := wtps st;
        calls := calls st |}).
Proof.
  revert st. induction response as [|recv response IH]; intros st.
  - destruct st as [[] ? ? ? ? ?]; cbn. by rewrite app_nil_r.
  - cbn. unfold bind at 1. cbn. rewrite IH. cbn.
    by rewrite <- app_assoc.
Qed.

(** A response for a module whose tenant and access point are still there
    replaces the frames by the decoded entries and calls back. *)
Lemma handle_response_valid st block tenant response :
  _block (self st) = Some block →
  tenants st !! tenant_id (self st) = Some tenant →
  radio block ∈ tenant →
  handle_response response st
  = (Return tt,
     {| self := with_frames (decode_frame block <$> response) (self st);
        modules := modules st; tenants := tenants st;
        runtime_wtps := runtime_wtps st; wtps := wtps st;
        calls := calls st ++ [handle_callback (module_id (self st))] |}).
Proof.
  intros Hb Ht Hin. unfold handle_response, bind at 1. cbn.
  rewrite Ht, Hb. destruct (decide (radio block ∉ tenant)) as [Hn|_]; [done|].
  unfold bind at 1. cbn. unfold bind at 1. rewrite decode_loop. done.
Qed.

(** C1, as amended.  A response for a module whose tenant and access
    point are still there is decoded entry by entry, and the subtype of
    a frame depends on the subtype code of its entry alone: the codes
    0x00, 0x10, 0x20, 0x30 and 0x80 give ASSOC_REQ, ASSOC_RESP, AUTH_REQ,
    AUTH_RESP and BEACON whatever the frame type is, and every other
    code is passed through as the number it is.  So an entry of type
    code 0x08 and subtype code 0x00 decodes to type DATA with subtype
    ASSOC_REQ, and the subtype code 0x99 decodes to 0x99. *)
Theorem C1_subtype_decoding st block tenant response :
  _block (self st) = Some block →
  tenants st !! tenant_id (self st) = Some tenant →
  radio block ∈ tenant →
  let r := handle_response response st in
  r.1 = Return tt ∧
  length (frames (self r.2)) = length response ∧
  ∀ (i : nat) recv, response !! i = Some recv →
    ∃ f, frames (self r.2) !! i = Some f ∧
      (e_subtype recv = 0x00 → f_subtype f = VStr "ASSOC_REQ") ∧
      (e_subtype recv = 0x10 → f_subtype f = VStr "ASSOC_RESP") ∧
      (e_subtype recv = 0x20 → f_subtype f = VStr "AUTH_REQ") ∧
      (e_subtype recv = 0x30 → f_subtype f = VStr "AUTH_RESP") ∧
      (e_subtype recv = 0x80 → f_subtype f = VStr "BEACON") ∧
      (e_subtype recv ∉ [0x00; 0x10; 0x20; 0x30; 0x80] →
       f_subtype f = VInt (e_subtype recv)) ∧
      (e_type recv = 0x08 → e_subtype recv = 0x00 →
       f_type f = "DATA" ∧ f_subtype f = VStr "ASSOC_REQ") ∧
      (e_subtype recv = 0x99 → f_subtype f = VInt 0x99).
Proof.
  intros Hb Ht Hin r. subst r.
  rewrite (handle_response_valid st block tenant response Hb Ht Hin). cbn.
  split; [done|]. split; [by rewrite length_fmap|].
  intros i recv Hi. exists (decode_frame block recv).
  split; [by rewrite list_lookup_fmap, Hi|].
  unfold decode_frame, pt_subtype, pt_type; cbn.
  split_and!.
  - by intros ->.
  - by intros ->.
  - by intros ->.
  - by intros ->.
  - by intros ->.
  - intros Hn. repeat case_decide; try done; exfalso; apply Hn; set_solver.
  - by intros -> ->.
  - by intros ->.
Qed.
End proofs.

Lemma C1_subtype_decoding_witness :
  let r := handle_response (ext := sample_externals) [data_entry]
             sample_summary_state in
  r.1 = Return tt ∧
  ∃ f, frames (self r.2) !! 0%nat = Some f ∧
       f_type f = "DATA" ∧ f_subtype f = VStr "ASSOC_REQ".
Proof.
  destruct (C1_subtype_decoding (ext := sample_externals)
              sample_summary_state block_a {[ 1%N; 2%N ]} [data_entry])
    as (Hret & _ & Hall).
  - reflexivity.
  - reflexivity.
  - set_solver.
  - split; [exact Hret|].
    destruct (Hall 0%nat data_entry eq_refl) as (f & Hf & H).
    exists f. split; [exact Hf|].
    apply H; reflexivity.
Defined.

(** The entry of type code 0x08 and subtype code 0x00 does not decode to
    the subtype 0: its frame has type DATA and subtype ASSOC_REQ. *)
Lemma C1_data_subtype_counterexample :
  ∃ f, frames (self (handle_response (ext := sample_externals) [data_entry]
                       sample_summary_state).2) = [f] ∧
       f_type f = "DATA" ∧ f_subtype f = VStr "ASSOC_REQ" ∧
       f_subtype f ≠ VInt 0.
Proof.
  eexists. split; [vm_compute; reflexivity|]. cbn. done.
Qed.

Section unload_proofs.
Context {ext : Externals}.

(** The access point of [w] after one more read of its sequence number. *)
Lemma seq_read_eq w st :
  seq_read w st
  = (Return (wtp_seq (wtps st w) + 1)%N,
     {| self := self st; modules := modules st; tenants := tenants st;
        runtime_wtps := runtime_wtps st;
        wtps := <[ w := {| wtp_ports := wtp_ports (wtps st w);
                           wtp_supports := wtp_supports (wtps st w);
                           wtp_connection := wtp_connection (wtps st w);
                           wtp_seq := (wtp_seq (wtps st w) + 1)%N |} ]>
                  (wtps st);
        calls := calls st |}).
Proof. reflexivity. Qed.

(** [remove_module] for an id that is registered, or that the worker lets
    pass, and for an id that it rejects. *)
Lemma remove_module_eq st id :
  is_Some (modules st !! id) ∨ remove_missing id = Return tt →
  remove_module id st
  = (Return tt,
     {| self := self st; modules := delete id (modules st);
        tenants := tenants st; runtime_wtps := runtime_wtps st;
        wtps := wtps st; calls := calls st |}).
Proof.
  intros H. unfold remove_module, bind, get, modify, lift.
  case_decide as Hin; [done|]. destruct H as [H|H]; [done|]. rewrite H.
  apply eq_None_not_Some in Hin. rewrite delete_id by done. by destruct st.
Qed.

Lemma remove_module_refused st id e :
  modules st !! id = None → remove_missing id = Raise e →
  remove_module id st = (Raise e, st).
Proof.
  intros Hm He. unfold remove_module, bind, get, lift.
  rewrite decide_False by (rewrite Hm; by intros []). by rewrite He.
Qed.

(** Unloading a module bound to a block of a connected access point, when
    its teardown message fits [DEL_SUMMARY]. *)
Lemma unload_connected st b msg :
  _block (self st) = Some b →
  is_Some (modules st !! module_id (self st))
  ∨ remove_missing (module_id (self st)) = Return tt →
  wtp_connected (wtps st (radio b)) = true →
  DEL_SUMMARY_build
    (del_summary (wtp_seq (wtps st (radio b)) + 1)%N (module_id (self st)))
  = Some msg →
  unload st
  = (Return tt,
     {| self := self st;
        modules := delete (module_id (self st)) (modules st);
        tenants := tenants st; runtime_wtps := runtime_wtps st;
        wtps := <[ radio b :=
                     {| wtp_ports := wtp_ports (wtps st (radio b));
                        wtp_supports := wtp_supports (wtps st (radio b));
                        wtp_connection := wtp_connection (wtps st (radio b));
                        wtp_seq := (wtp_seq (wtps st (radio b)) + 1)%N |} ]>
                  (wtps st);
        calls := calls st ++ [stream_write (radio b) msg] |}).
Proof.
  intros Hb Hreg Hc Hq. unfold unload, bind at 1, this.
  unfold bind at 1. rewrite remove_module_eq by done. rewrite Hb.
  unfold bind at 1, get. cbn [wtps]. rewrite Hc. cbn [negb].
  unfold bind. rewrite seq_read_eq. cbn [self wtps module_id].
  by rewrite Hq.
Qed.

(** The same when the teardown message does not fit: the build raises
    after the module was taken out of the registry and the sequence number
    was read. *)
Lemma unload_unbuilt st b :
  _block (self st) = Some b →
  is_Some (modules st !! module_id (self st))
  ∨ remove_missing (module_id (self st)) = Return tt →
  wtp_connected (wtps st (radio b)) = true →
  DEL_SUMMARY_build
    (del_summary (wtp_seq (wtps st (radio b)) + 1)%N (module_id (self st)))
  = None →
  unload st
  = (Raise FieldError,
     {| self := self st;
        modules := delete (module_id (self st)) (modules st);
        tenants := tenants st; runtime_wtps := runtime_wtps st;
        wtps := <[ radio b :=
                     {| wtp_ports := wtp_ports (wtps st (radio b));
                        wtp_supports := wtp_supports (wtps st (radio b));
                        wtp_connection := wtp_connection (wtps st (radio b));
                        wtp_seq := (wtp_seq (wtps st (radio b)) + 1)%N |} ]>
                  (wtps st);
        calls := calls st |}).
Proof.
  intros Hb Hreg Hc Hq. unfold unload, bind at 1, this.
  unfold bind at 1. rewrite remove_module_eq by done. rewrite Hb.
  unfold bind at 1, get. cbn [wtps]. rewrite Hc. cbn [negb].
  unfold bind. rewrite seq_read_eq. cbn [self wtps module_id].
  by rewrite Hq.
Qed.

(** Unloading a module bound to a block of an access point that has no
    connection or whose stream is closed. *)
Lemma unload_disconnected st b :
  _block (self st) = Some b →
  is_Some (modules st !! module_id (self st))
  ∨ remove_missing (module_id (self st)) = Return tt →
  wtp_connected (wtps st (radio b)) = false →
  unload st
  = (Return tt,
     {| self := self st;
        modules := delete (module_id (self st)) (modules st);
        tenants := tenants st; runtime_wtps := runtime_wtps st;
        wtps := wtps st; calls := calls st |}).
Proof.
  intros Hb Hreg Hc. unfold unload, bind at 1, this.
  unfold bind at 1. rewrite remove_module_eq by done. rewrite Hb.
  unfold bind at 1, get. cbn [wtps]. by rewrite Hc.
Qed.

(** Unloading a module that is not registered, with a worker that rejects
    its id: nothing else is done. *)
Lemma unload_refused st e :
  modules st !! module_id (self st) = None →
  remove_missing (module_id (self st)) = Raise e →
  unload st = (Raise e, st).
Proof.
  intros Hm He. unfold unload, bind at 1, this. unfold bind.
  by rewrite (remove_module_refused _ _ e).
Qed.

End unload_proofs.



Section bye_proofs.
Context {ext : Externals}.

(** Removing the modules of a list of ids, each of them registered and
    none of them twice in the list, one after the other. *)
Lemma remove_module_loop ids st :
  NoDup ids →
  (∀ id, id ∈ ids → is_Some (modules st !! id)) →
  for_each ids remove_module st
  = (Return tt,
     {| self := self st;
        modules := foldl (λ m id, delete id m) (modules st) ids;
        tenants := tenants st; runtime_wtps := runtime_wtps st;
        wtps := wtps st; calls := calls st |}).
Proof.
  revert st. induction ids as [|id ids IH]; intros st Hnd Hin.
  - by destruct st.
  - apply list.NoDup_cons in Hnd as [Hid Hnd].
    cbn [for_each]. unfold bind.
    rewrite remove_module_eq by (left; apply Hin; left).
    rewrite IH; [done|done|]. intros id' Hid'. cbn [modules].
    rewrite lookup_delete_ne by (by intros ->).
    apply Hin. by right.
Qed.

(** The ids [handle_bye] collects are those of the registered modules
    bound to a supported block. *)
Lemma elem_of_to_be_removed supported (m : gmap N Summary) k :
  k ∈ (filter (λ kv, bound_to supported kv.2) (map_to_list m)).*1
  ↔ ∃ x, m !! k = Some x ∧ bound_to supported x.
Proof.
  rewrite list_elem_of_fmap. split.
  - intros ([k' x] & -> & Hin). apply list_elem_of_filter in Hin as [Hb Hin].
    apply elem_of_map_to_list in Hin. eauto.
  - intros (x & Hk & Hb). exists (k, x). split; [done|].
    apply list_elem_of_filter. split; [done|]. by apply elem_of_map_to_list.
Qed.

(** C7.  Handling the bye of an access point removes from the registry
    exactly the modules whose block is an element of the pool of blocks
    the access point supports, leaves every other module as it is, and
    calls no collaborator: no teardown message is written. *)
Theorem C7_handle_bye st wtp :
  let supported := wtp_supports (wtps st wtp) in
  let r := handle_bye wtp st in
  r.1 = Return tt ∧
  (∀ id m, modules st !! id = Some m → bound_to supported m →
           modules r.2 !! id = None) ∧
  (∀ id m, modules st !! id = Some m → ¬ bound_to supported m →
           modules r.2 !! id = Some m) ∧
  (∀ id, modules st !! id = None → modules r.2 !! id = None) ∧
  calls r.2 = calls st ∧ wtps r.2 = wtps st ∧ self r.2 = self st.
Proof.
  intros supported r. subst r. unfold handle_bye, bind, get. cbn.
  rewrite remove_module_loop; cycle 1.
  { eapply sublist_NoDup; [apply (NoDup_fst_map_to_list (modules st))|].
    apply fmap_sublist, sublist_filter. }
  { intros id Hid. apply elem_of_to_be_removed in Hid as (x & -> & _).
    by eexists. }
  cbn. fold supported.
  split_and!; try done.
  - intros id m Hm Hb. rewrite lookup_delete_list.
    case_decide as Hin; [done|]. exfalso. apply Hin.
    apply elem_of_to_be_removed. eauto.
  - intros id m Hm Hb. rewrite lookup_delete_list.
    case_decide as Hin; [|done]. exfalso.
    apply elem_of_to_be_removed in Hin as (x & Hx & Hbx). naive_solver.
  - intros id Hm. rewrite lookup_delete_list. by case_decide.
Qed.
End bye_proofs.

Section block_proofs.
Context {ext : Externals}.

(** A setter that raises leaves the module as it was. *)
Lemma block_set_raise_unchanged st value e :
  (block_set value st).1 = Raise e → (block_set value st).2 = st.
Proof.
  unfold block_set, getitem, bind, lift, raise, ret, get, update, modify.
  destruct value; cbn; try done.
  repeat (case_match; simplify_eq/=; try done).
Qed.

(** A descriptor without [wtp] is rejected by the lookup of that key. *)
Lemma block_set_missing_wtp st d :
  d !! "wtp" = None →
  block_set (VDict d) st = (Raise (KeyError (KStr "wtp")), st).
Proof.
  intros Hd. unfold block_set, getitem, bind, raise. by rewrite Hd.
Qed.


(** The setter for a well-formed descriptor whose access point is known:
    what is left of it is the match against the supported blocks. *)
Lemma block_set_well_formed st d a hw ch bd vw vh vc vb :
  d !! "wtp" = Some vw → d !! "hwaddr" = Some vh →
  d !! "channel" = Some vc → d !! "band" = Some vb →
  EtherAddress_new vw = Return a → a ∈ runtime_wtps st →
  EtherAddress_new vh = Return hw →
  py_int vc = Return ch → py_int vb = Return bd →
  let matched :=
    pool_and (wtp_supports (wtps st a))
      {[ {| radio := a; hwaddr := hw; channel := ch; band := bd |} ]} in
  block_set (VDict d) st
  = if negb (pool_truthy matched) then
      (Raise (ValueError "No block specified"), st)
    else if decide (1 < size matched)%nat then
      (Raise (ValueError "More than one block specified"), st)
    else
      match pool_pop matched with
      | None => (Raise (KeyError (KStr "pop from an empty set")), st)
      | Some (b, _) =>
          (Return tt,
           {| self := with_block (Some b) (self st); modules := modules st;
              tenants := tenants st; runtime_wtps := runtime_wtps st;
              wtps := wtps st; calls := calls st |})
      end.
Proof.
  intros Hw Hh Hc Hb Ha Hin Hhw Hch Hbd matched. subst matched.
  unfold block_set, getitem, bind, lift, raise, ret, get.
  rewrite Hw, Ha. cbn [fst snd]. rewrite Hh, Hc, Hb.
  rewrite decide_False by (by intros Hn; apply Hn).
  rewrite !decide_False by done.
  rewrite Hhw, Hch, Hbd.
  destruct (negb _); [done|]. case_decide; [done|].
  by destruct (pool_pop _) as [[b rest]|].
Qed.

(** A well-formed descriptor that no supported block of the access point
    matches is rejected with the no-match error. *)
Lemma block_set_no_match st d a hw ch bd vw vh vc vb :
  d !! "wtp" = Some vw → d !! "hwaddr" = Some vh →
  d !! "channel" = Some vc → d !! "band" = Some vb →
  EtherAddress_new vw = Return a → a ∈ runtime_wtps st →
  EtherAddress_new vh = Return hw →
  py_int vc = Return ch → py_int vb = Return bd →
  (∀ x, x ∈ wtp_supports (wtps st a) →
        ¬ block_match x {| radio := a; hwaddr := hw; channel := ch;
                           band := bd |}) →
  block_set (VDict d) st = (Raise (ValueError "No block specified"), st).
Proof.
  intros Hw Hh Hc Hb Ha Hin Hhw Hch Hbd Hnot.
  rewrite (block_set_well_formed st d a hw ch bd vw vh vc vb) by done.
  cbn zeta. unfold pool_truthy.
  rewrite bool_decide_eq_false_2; [done|].
  intros Hne. apply Hne. apply set_eq. intros x.
  rewrite elem_of_pool_and_singleton.
  split; [intros [Hx Hm]; by destruct (Hnot x)|].
  intros Hx. by apply not_elem_of_empty in Hx.
Qed.

(** A well-formed descriptor that two supported blocks of the access point
    match is rejected as ambiguous. *)
Lemma block_set_ambiguous st d a hw ch bd vw vh vc vb x y :
  d !! "wtp" = Some vw → d !! "hwaddr" = Some vh →
  d !! "channel" = Some vc → d !! "band" = Some vb →
  EtherAddress_new vw = Return a → a ∈ runtime_wtps st →
  EtherAddress_new vh = Return hw →
  py_int vc = Return ch → py_int vb = Return bd →
  x ∈ wtp_supports (wtps st a) → y ∈ wtp_supports (wtps st a) → x ≠ y →
  block_match x {| radio := a; hwaddr := hw; channel := ch; band := bd |} →
  block_match y {| radio := a; hwaddr := hw; channel := ch; band := bd |} →
  block_set (VDict d) st
  = (Raise (ValueError "More than one block specified"), st).
Proof.
  intros Hw Hh Hc Hb Ha Hin Hhw Hch Hbd Hx Hy Hxy Hmx Hmy.
  rewrite (block_set_well_formed st d a hw ch bd vw vh vc vb) by done.
  cbn zeta.
  set (matched := pool_and _ _).
  assert (Hsub : ({[ x; y ]} : ResourcePool) ⊆ matched).
  { intros z Hz. apply elem_of_pool_and_singleton.
    apply elem_of_union in Hz as [Hz|Hz]; apply elem_of_singleton in Hz as ->;
      done. }
  assert (Hsize : (2 ≤ size matched)%nat).
  { etransitivity; [|apply (subseteq_size _ _ Hsub)].
    rewrite size_union by (apply disjoint_singleton_l;
                           by rewrite elem_of_singleton).
    by rewrite !size_singleton. }
  unfold pool_truthy. rewrite bool_decide_eq_true_2.
  - cbn [negb]. by rewrite decide_True by lia.
  - intros He. rewrite He, size_empty in Hsize. lia.
Qed.

(** C10.  A value that is neither a block nor a dict makes the setter of
    [block] return without raising and without changing anything, the
    block of the module included. *)
Theorem C10_block_set_other_type st value :
  (∀ b, value ≠ VBlock b) → (∀ d, value ≠ VDict d) →
  block_set value st = (Return tt, st).
Proof.
  intros Hb Hd. destruct value; try done.
  - by destruct (Hb b).
  - by destruct (Hd d).
Qed.
End block_proofs.

Lemma C10_block_set_other_type_witness :
  block_set (ext := sample_externals) (VStr "block") sample_summary_state
  = (Return tt, sample_summary_state) ∧
  block_set (ext := sample_externals) (VInt 7) sample_summary_state
  = (Return tt, sample_summary_state).
Proof.
  split; apply (C10_block_set_other_type (ext := sample_externals)); done.
Defined.

(** A well-formed descriptor of a supported block binds the module to it. *)
Example block_set_descriptor_a :
  let r := block_set (ext := sample_externals) (VDict descriptor_a)
             unset_summary_state in
  r.1 = Return tt ∧ _block (self r.2) = Some block_a.
Proof. split; vm_compute; reflexivity. Qed.

(** C8 at a descriptor that lacks [wtp].  The setter reads [value['wtp']]
    before any of its checks, so the descriptor is rejected with the
    KeyError of that read and not with the missing-field error that the
    last check of the setter holds for it; the block stays as it was. *)
Lemma C8_missing_wtp_raises_KeyError :
  let r := block_set (ext := sample_externals)
             (VDict descriptor_without_wtp) sample_summary_state in
  r.1 = Raise (KeyError (KStr "wtp")) ∧
  r.1 ≠ Raise (ValueError "Missing field: wtp") ∧
  _block (self r.2) = _block (self sample_summary_state).
Proof.
  rewrite (block_set_missing_wtp (ext := sample_externals)) by reflexivity.
  cbn. done.
Qed.
End summary_theory.

(** ** The LVAP *)

Module lvap_theory.
Import lvap.

Ltac run :=
  unfold bind, ret, raise, get, this, update, call, store, modify; cbn.

(** A loop that makes one collaborator call per element. *)
Lemma call_loop {A} (f : A → Event) (l : list A) st :
  for_each l (λ x, call (f x)) st
  = (Return tt, with_calls (calls st ++ (f <$> l)) st).
Proof.
  revert st. induction l as [|x l IH]; intros st.
  - destruct st. unfold with_calls. cbn. by rewrite app_nil_r.
  - cbn [for_each]. unfold bind at 1. unfold call at 1, modify. rewrite IH.
    unfold with_calls. cbn. by rewrite <- app_assoc.
Qed.

Lemma with_calls_nil st : with_calls (calls st ++ []) st = st.
Proof. destruct st. unfold with_calls. cbn. by rewrite app_nil_r. Qed.

(** A list of ports whose access points all have a connection is served in
    full. *)
Lemma served_all w l :
  (∀ port, port ∈ l →
           wtp_connection (w (radio (port_block port))) ≠ NoConnection) →
  served w l = l.
Proof.
  induction l as [|port l IH]; intros Hall; [done|]. cbn [served].
  destruct (wtp_connection (w (radio (port_block port)))) eqn:Hc.
  - by destruct (Hall port (list_elem_of_here _ _)).
  - rewrite IH; [done|]. intros q Hq. apply Hall. by right.
  - rewrite IH; [done|]. intros q Hq. apply Hall. by right.
Qed.

Lemma served_prefix w l : ∃ k, l = served w l ++ k.
Proof.
  induction l as [|port l [k IH]]; [by exists []|]. cbn [served].
  destruct (wtp_connection _).
  - by eexists.
  - exists k. cbn. by rewrite <- IH.
  - exists k. cbn. by rewrite <- IH.
Qed.

(** An add-client loop calls the connection of one port after the other,
    up to the first port whose access point has no connection, where it
    raises; it returns if there is none. *)
Lemma send_loop mask l st :
  for_each l (connection_send_add_lvap mask) st
  = (if decide (served (wtps st) l = l) then Return tt
     else Raise (AttributeError "send_add_lvap"),
     with_calls (calls st ++ (add_event mask <$> served (wtps st) l)) st).
Proof.
  revert st. induction l as [|port l IH]; intros st.
  - cbn. by rewrite with_calls_nil.
  - cbn [for_each served]. unfold bind at 1.
    unfold connection_send_add_lvap at 1, bind at 1, get.
    destruct (wtp_connection (wtps st (radio (port_block port)))) eqn:Hc.
    + unfold raise. rewrite decide_False by done. cbn [fmap list_fmap].
      by rewrite with_calls_nil.
    + unfold call, modify. rewrite IH. cbn [wtps calls].
      destruct (decide (served (wtps st) l = l)) as [He|Hn].
      * rewrite decide_True by (by rewrite He).
        unfold with_calls. cbn. by rewrite <- app_assoc.
      * rewrite decide_False by (by intros [= ?]).
        unfold with_calls. cbn. by rewrite <- app_assoc.
    + unfold call, modify. rewrite IH. cbn [wtps calls].
      destruct (decide (served (wtps st) l = l)) as [He|Hn].
      * rewrite decide_True by (by rewrite He).
        unfold with_calls. cbn. by rewrite <- app_assoc.
      * rewrite decide_False by (by intros [= ?]).
        unfold with_calls. cbn. by rewrite <- app_assoc.
Qed.

(** The two loops of the attribute setters: the loop over the downlink
    entries, with the replace flag, and, if that one returned, the loop
    over the uplink entries, with the merge flag. *)
Lemma resend_add_lvap_eq st :
  let down := values (_downlink (self st)) in
  let up := values (_uplink (self st)) in
  resend_add_lvap st
  = if decide (served (wtps st) down = down) then
      (if decide (served (wtps st) up = up) then Return tt
       else Raise (AttributeError "send_add_lvap"),
       with_calls (calls st ++ (add_event Replace <$> down)
                   ++ (add_event Merge <$> served (wtps st) up)) st)
    else
      (Raise (AttributeError "send_add_lvap"),
       with_calls (calls st
                   ++ (add_event Replace <$> served (wtps st) down)) st).
Proof.
  intros down up. subst down up.
  unfold resend_add_lvap. unfold bind at 1. unfold bind at 1, this at 1.
  rewrite send_loop. case_decide as Hd; [|done].
  unfold bind at 1, this at 1. rewrite send_loop. rewrite Hd.
  unfold with_calls. cbn. by rewrite <- app_assoc.
Qed.

(** They send one add-client message to the access point of every downlink
    entry and one to the access point of every uplink entry when each of
    these access points has a connection. *)
Lemma resend_add_lvap_served st :
  (∀ port, port ∈ values (_downlink (self st)) ++ values (_uplink (self st)) →
           wtp_connection (wtps st (radio (port_block port))) ≠ NoConnection) →
  resend_add_lvap st
  = (Return tt,
     with_calls (calls st
                 ++ (add_event Replace <$> values (_downlink (self st)))
                 ++ (add_event Merge <$> values (_uplink (self st)))) st).
Proof.
  intros Hall. rewrite resend_add_lvap_eq. cbn zeta.
  assert (Hd : served (wtps st) (values (_downlink (self st)))
               = values (_downlink (self st))).
  { apply served_all. intros port Hp. apply Hall, elem_of_app. by left. }
  assert (Hu : served (wtps st) (values (_uplink (self st)))
               = values (_uplink (self st))).
  { apply served_all. intros port Hp. apply Hall, elem_of_app. by right. }
  rewrite Hd, Hu. by rewrite !decide_True by done.
Qed.

Lemma length_values (m : gmap ResourceBlock RadioPort) :
  length (values m) = size m.
Proof. unfold values. by rewrite length_fmap, length_map_to_list. Qed.

Lemma served_length w (m : gmap ResourceBlock RadioPort) :
  (length (served w (values m)) ≤ size m)%nat.
Proof.
  destruct (served_prefix w (values m)) as [k Hk].
  apply (f_equal length) in Hk. rewrite length_app, length_values in Hk. lia.
Qed.

Lemma served_eq_iff w l :
  served w l = l
  ↔ ∀ port, port ∈ l →
            wtp_connection (w (radio (port_block port))) ≠ NoConnection.
Proof.
  split; [|apply served_all].
  induction l as [|port l IH]; intros He q Hq.
  { by apply not_elem_of_nil in Hq. }
  cbn [served] in He.
  destruct (wtp_connection (w (radio (port_block port)))) eqn:Hc; [done|..];
    injection He as He;
    (apply elem_of_cons in Hq as [->|Hq]; [by rewrite Hc|by apply IH]).
Qed.

Lemma served_short w (m : gmap ResourceBlock RadioPort) :
  served w (values m) ≠ values m →
  (length (served w (values m)) < size m)%nat.
Proof.
  intros Hne. destruct (served_prefix w (values m)) as [k Hk].
  destruct k as [|x k]; [by rewrite app_nil_r in Hk|].
  apply (f_equal length) in Hk.
  rewrite length_app, length_values in Hk. cbn in Hk. lia.
Qed.

(** Whether they return or raise, all they change is the trace, to which
    they add add-client messages: one for each entry, and they return, when
    the access point of every entry has a connection; fewer, and they
    raise, when one of them has none. *)
Lemma resend_add_lvap_outcome st :
  let n := (size (_downlink (self st)) + size (_uplink (self st)))%nat in
  let reachable :=
    ∀ port, port ∈ values (_downlink (self st)) ++ values (_uplink (self st)) →
            wtp_connection (wtps st (radio (port_block port))) ≠ NoConnection in
  ∃ c, (resend_add_lvap st).2 = with_calls (calls st ++ c) st ∧
       Forall is_add_lvap c ∧ (length c ≤ n)%nat ∧
       (reachable → (resend_add_lvap st).1 = Return tt ∧ length c = n) ∧
       (¬ reachable →
        (resend_add_lvap st).1 = Raise (AttributeError "send_add_lvap") ∧
        (length c < n)%nat).
Proof.
  intros n reachable. subst n.
  assert (Hreach : reachable
                   ↔ served (wtps st) (values (_downlink (self st)))
                     = values (_downlink (self st))
                     ∧ served (wtps st) (values (_uplink (self st)))
                       = values (_uplink (self st))).
  { subst reachable. rewrite !served_eq_iff. split.
    - intros Hall. split; intros port Hp; apply Hall, elem_of_app; auto.
    - intros [Hd Hu] port Hp. apply elem_of_app in Hp as [Hp|Hp]; auto. }
  rewrite resend_add_lvap_eq. cbn zeta.
  pose proof (served_length (wtps st) (_downlink (self st))) as Hld.
  pose proof (served_length (wtps st) (_uplink (self st))) as Hlu.
  case_decide as Hd.
  - eexists. split; [done|]. split.
    { apply Forall_app.
      split; apply Forall_fmap, Forall_forall; by intros []. }
    rewrite length_app, !length_fmap, length_values. split; [lia|].
    case_decide as Hu.
    + split; [|by intros Hn; destruct Hn; apply Hreach].
      intros _. split; [done|]. by rewrite Hu, length_values.
    + split; [by intros [_ ?]%Hreach|].
      intros _. split; [done|]. apply served_short in Hu. lia.
  - eexists. split; [done|]. split.
    { apply Forall_fmap, Forall_forall. by intros []. }
    rewrite length_fmap. split; [lia|].
    split; [by intros [? _]%Hreach|].
    intros _. split; [done|]. apply served_short in Hd. lia.
Qed.

(** A setter that finds another value than the one it is given stores the
    new value and runs the two loops. *)
Lemma attribute_set_resend st :
  (∀ a, _encap (self st) ≠ a →
        encap_set (Some a) st
        = resend_add_lvap (with_self (with_encap a (self st)) st)) ∧
  (∀ i, _assoc_id (self st) ≠ i →
        assoc_id_set i st
        = resend_add_lvap (with_self (with_assoc_id i (self st)) st)) ∧
  (∀ s, _ssid (self st) ≠ s →
        ssid_set s st
        = resend_add_lvap (with_self (with_ssid s (self st)) st)).
Proof.
  split_and!; intros v Hne;
    unfold encap_set, assoc_id_set, ssid_set, bind at 1, this at 1;
    rewrite decide_False by done;
    unfold bind, update at 1, modify; cbn;
    by destruct (resend_add_lvap _) as [[[]|e] st'].
Qed.

(** Writing the value an attribute already has sends nothing and changes
    nothing. *)
Lemma attribute_set_same st :
  encap_set (Some (_encap (self st))) st = (Return tt, st) ∧
  assoc_id_set (_assoc_id (self st)) st = (Return tt, st) ∧
  ssid_set (_ssid (self st)) st = (Return tt, st).
Proof.
  unfold encap_set, assoc_id_set, ssid_set. run.
  by rewrite !decide_True.
Qed.

(** Writing a new encapsulation address, association id or SSID stores it
    and then sends one add-client message per bound entry, when the access
    point of each has a connection. *)
Lemma encap_set_new st a :
  _encap (self st) ≠ a →
  (∀ port, port ∈ values (_downlink (self st)) ++ values (_uplink (self st)) →
           wtp_connection (wtps st (radio (port_block port))) ≠ NoConnection) →
  encap_set (Some a) st
  = (Return tt,
     with_calls (calls st
                 ++ (add_event Replace <$> values (_downlink (self st)))
                 ++ (add_event Merge <$> values (_uplink (self st))))
       (with_self (with_encap a (self st)) st)).
Proof.
  intros Hne Hall. unfold encap_set, bind at 1, this at 1.
  rewrite decide_False by done.
  unfold bind, update at 1, modify. by rewrite resend_add_lvap_served.
Qed.

Lemma assoc_id_set_new st n :
  _assoc_id (self st) ≠ n →
  (∀ port, port ∈ values (_downlink (self st)) ++ values (_uplink (self st)) →
           wtp_connection (wtps st (radio (port_block port))) ≠ NoConnection) →
  assoc_id_set n st
  = (Return tt,
     with_calls (calls st
                 ++ (add_event Replace <$> values (_downlink (self st)))
                 ++ (add_event Merge <$> values (_uplink (self st))))
       (with_self (with_assoc_id n (self st)) st)).
Proof.
  intros Hne Hall. unfold assoc_id_set, bind at 1, this at 1.
  rewrite decide_False by done.
  unfold bind, update at 1, modify. by rewrite resend_add_lvap_served.
Qed.

Lemma ssid_set_new st s :
  _ssid (self st) ≠ s →
  (∀ port, port ∈ values (_downlink (self st)) ++ values (_uplink (self st)) →
           wtp_connection (wtps st (radio (port_block port))) ≠ NoConnection) →
  ssid_set s st
  = (Return tt,
     with_calls (calls st
                 ++ (add_event Replace <$> values (_downlink (self st)))
                 ++ (add_event Merge <$> values (_uplink (self st))))
       (with_self (with_ssid s (self st)) st)).
Proof.
  intros Hne Hall. unfold ssid_set, bind at 1, this at 1.
  rewrite decide_False by done.
  unfold bind, update at 1, modify. by rewrite resend_add_lvap_served.
Qed.

(** The setter of the SSID list stores the list and calls no
    collaborator, whatever the list and the bindings are. *)
Lemma ssids_set_eq st ssids :
  ssids_set ssids st = (Return tt, with_self (with_ssids ssids (self st)) st).
Proof. reflexivity. Qed.

(** C2 at the SSID list.  The LVAP is bound to [block_a] on the downlink
    and to [block_b] on the uplink and its SSID list is empty; writing a
    new list stores it and sends no add-client message, where writing a
    new association id to the same LVAP sends one to each of the two. *)
Lemma C2_ssids_set_sends_nothing :
  let st := lvap_state bound_lvap ∅ in
  let r := ssids_set ["guest"] st in
  _ssids (self st) = [] ∧
  _ssids (self r.2) = ["guest"] ∧
  calls r.2 = calls st ∧
  calls (assoc_id_set 1 st).2
  = [send_add_lvap 1%N 99%N block_a Replace;
     send_add_lvap 1%N 99%N block_b Merge].
Proof. split_and!; vm_compute; reflexivity. Qed.

Ltac proj :=
  unfold with_calls, with_self, with_heap;
  cbn [self wtps heap calls with_calls with_self with_heap with_downlink
       with_uplink with_ports with_encap with_ssid with_ssids with_assoc_id
       addr bssid supports authentication_state association_state _ssids
       _encap _assoc_id _ssid _downlink _uplink ports fst snd].

Lemma clear_tables_eq st :
  clear_tables st
  = (Return tt, with_calls (calls st ++ clear_events (self st)) st).
Proof.
  unfold clear_tables, clear_events. run.
  destruct (wtp (self st)); cbn; [done|].
  by rewrite <- (with_calls_nil st) at 1.
Qed.

Lemma set_tables_eq st :
  set_tables st
  = match wtp (self st) with
    | None => (Return tt, st)
    | Some w =>
        match ports (self st) !! 0%nat with
        | None => (Raise (KeyError (KInt 0)), st)
        | Some port =>
            (Return tt,
             with_calls (calls st ++ [add_station_flows (addr (self st)) w
                                        (ovs_port_id port)]) st)
        end
    end.
Proof.
  unfold set_tables. run.
  destruct (wtp (self st)); [|done]. by destruct (ports (self st) !! 0%nat).
Qed.

(** The loop of [set_ports]. *)
Lemma set_ports_loop w ps st :
  for_each ps
    (λ port,
       if decide (iface port ≠ "empower0") then ret tt
       else
         let* l := this in
         update (with_ports
                   (<[ 0%nat := {| dpid := w; ovs_port_id := port_id port;
                                  virtual_port_id := 0%N;
                                  vp_hwaddr := port_hwaddr port;
                                  vp_iface := iface port |} ]> (ports l)))) st
  = (Return tt,
     with_self (with_ports (virtual_ports w ps (ports (self st))) (self st)) st).
Proof.
  revert st. induction ps as [|port ps IH]; intros st.
  - by destruct st as [[] ? ? ?].
  - cbn [for_each virtual_ports foldl]. unfold bind at 1.
    destruct (decide (iface port ≠ "empower0")).
    + unfold ret at 1. by rewrite IH.
    + unfold bind at 1, this at 1, update at 1, modify. by rewrite IH.
Qed.

Lemma set_ports_eq st :
  set_ports st
  = (Return tt,
     with_self
       (with_ports
          match wtp (self st) with
          | None => ∅
          | Some w => virtual_ports w (wtp_ports (wtps st w)) ∅
          end (self st)) st).
Proof.
  unfold set_ports. unfold bind at 1, update at 1, modify.
  unfold bind at 1, get at 1. proj.
  change (wtp (with_ports ∅ (self st))) with (wtp (self st)).
  destruct (wtp (self st)) as [w|]; [|done].
  by rewrite set_ports_loop.
Qed.

(** Deleting the entries of the downlink table one after the other. *)
Lemma downlink_delete_loop kvs st :
  NoDup kvs.*1 →
  (∀ k p, (k, p) ∈ kvs → _downlink (self st) !! k = Some p) →
  for_each kvs.*1 downlink_delitem st
  = (Return tt,
     with_calls (calls st ++ del_events (wtps st) kvs)
       (with_self
          (with_downlink
             (foldl (λ m k, delete k m) (_downlink (self st)) kvs.*1)
             (self st)) st)).
Proof.
  revert st. induction kvs as [|[k p] kvs IH]; intros st Hnd Hall.
  - destruct st as [[] ? ? ?]. unfold with_calls, with_self. cbn.
    by rewrite app_nil_r.
  - apply list.NoDup_cons in Hnd as [Hk Hnd].
    cbn [fmap list_fmap for_each fst]. unfold bind at 1.
    unfold downlink_delitem at 1, bind at 1, get at 1.
    rewrite (Hall k p) by apply list_elem_of_here.
    assert (Hrest : ∀ k' p', (k', p') ∈ kvs →
              delete k (_downlink (self st)) !! k' = Some p').
    { intros k' p' Hin. rewrite lookup_delete_ne.
      - apply Hall. by apply list_elem_of_further.
      - intros ->. apply Hk. apply list_elem_of_fmap. by exists (k', p'). }
    destruct (wtp_connected (wtps st (radio k))) eqn:Hc.
    + unfold bind at 1, call at 1, update at 1, modify. proj.
      rewrite IH; [|done|exact Hrest]. proj.
      unfold del_events. cbn [flat_map fst snd]. rewrite Hc.
      unfold with_calls, with_self. proj. by rewrite <- app_assoc.
    + unfold bind at 1, ret at 1, update at 1, modify. proj.
      rewrite IH; [|done|exact Hrest]. proj.
      unfold del_events. cbn [flat_map fst snd]. by rewrite Hc.
Qed.

Lemma downlink_delete_all st :
  for_each (keys (_downlink (self st))) downlink_delitem st
  = (Return tt,
     with_calls (calls st
                 ++ del_events (wtps st) (map_to_list (_downlink (self st))))
       (with_self (with_downlink ∅ (self st)) st)).
Proof.
  pose proof (delete_keys_empty (_downlink (self st))) as He.
  unfold keys in *. rewrite downlink_delete_loop.
  - by rewrite He.
  - apply NoDup_fst_map_to_list.
  - intros k p Hin. by apply elem_of_map_to_list.
Qed.

(** The same for the uplink table. *)
Lemma uplink_delete_loop kvs st :
  NoDup kvs.*1 →
  (∀ k p, (k, p) ∈ kvs → _uplink (self st) !! k = Some p) →
  for_each kvs.*1 uplink_delitem st
  = (Return tt,
     with_calls (calls st ++ del_events (wtps st) kvs)
       (with_self
          (with_uplink
             (foldl (λ m k, delete k m) (_uplink (self st)) kvs.*1)
             (self st)) st)).
Proof.
  revert st. induction kvs as [|[k p] kvs IH]; intros st Hnd Hall.
  - destruct st as [[] ? ? ?]. unfold with_calls, with_self. cbn.
    by rewrite app_nil_r.
  - apply list.NoDup_cons in Hnd as [Hk Hnd].
    cbn [fmap list_fmap for_each fst]. unfold bind at 1.
    unfold uplink_delitem at 1, bind at 1, get at 1.
    rewrite (Hall k p) by apply list_elem_of_here.
    assert (Hrest : ∀ k' p', (k', p') ∈ kvs →
              delete k (_uplink (self st)) !! k' = Some p').
    { intros k' p' Hin. rewrite lookup_delete_ne.
      - apply Hall. by apply list_elem_of_further.
      - intros ->. apply Hk. apply list_elem_of_fmap. by exists (k', p'). }
    destruct (wtp_connected (wtps st (radio k))) eqn:Hc.
    + unfold bind at 1, call at 1, update at 1, modify. proj.
      rewrite IH; [|done|exact Hrest]. proj.
      unfold del_events. cbn [flat_map fst snd]. rewrite Hc.
      unfold with_calls, with_self. proj. by rewrite <- app_assoc.
    + unfold bind at 1, ret at 1, update at 1, modify. proj.
      rewrite IH; [|done|exact Hrest]. proj.
      unfold del_events. cbn [flat_map fst snd]. by rewrite Hc.
Qed.

Lemma uplink_delete_all st :
  for_each (keys (_uplink (self st))) uplink_delitem st
  = (Return tt,
     with_calls (calls st
                 ++ del_events (wtps st) (map_to_list (_uplink (self st))))
       (with_self (with_uplink ∅ (self st)) st)).
Proof.
  pose proof (delete_keys_empty (_uplink (self st))) as He.
  unfold keys in *. rewrite uplink_delete_loop.
  - by rewrite He.
  - apply NoDup_fst_map_to_list.
  - intros k p Hin. by apply elem_of_map_to_list.
Qed.

(** [pop] on a pool that is not empty takes one of its elements out. *)
Lemma pool_pop_nonempty (p : ResourcePool) :
  p ≠ ∅ → ∃ d, d ∈ p ∧ pool_pop p = Some (d, p ∖ {[ d ]}).
Proof.
  intros Hne. unfold pool_pop.
  destruct (elements p) as [|d ds] eqn:He.
  - apply elements_empty_inv in He. by apply leibniz_equiv in He.
  - exists d. split; [|done].
    apply elem_of_elements. rewrite He. apply list_elem_of_here.
Qed.

Lemma with_heap_same st : with_heap (heap st) st = st.
Proof. by destruct st. Qed.

Lemma pool_read_eq r st : pool_read r st = (Return (ref_pool st r), st).
Proof. by destruct r. Qed.

Lemma pool_pop_ref_eq st r d :
  pool_pop (ref_pool st r) = Some (d, ref_pool st r ∖ {[ d ]}) →
  pool_pop_ref r st
  = (Return (d, ref_after r (ref_pool st r ∖ {[ d ]})),
     with_heap (heap_after st r (ref_pool st r ∖ {[ d ]})) st).
Proof.
  intros Hp. unfold pool_pop_ref, bind at 1. rewrite pool_read_eq, Hp.
  destruct r as [l|p]; cbn.
  - by run.
  - unfold ret. by rewrite with_heap_same.
Qed.

Lemma ref_pool_after st st' r p :
  heap st' = heap_after st r p → ref_pool st' (ref_after r p) = p.
Proof.
  intros Hh. destruct r as [l|q]; cbn; [|done].
  rewrite Hh. cbn. by rewrite fn_lookup_insert.
Qed.

(** Binding a block into an empty downlink table. *)
Lemma downlink_setitem_empty st d port :
  _downlink (self st) = ∅ →
  downlink_setitem d port st
  = (Return tt,
     with_calls (calls st ++ [send_add_lvap (radio d) (port_lvap port) d Replace;
                              send_set_port (radio d) port])
       (with_self (with_downlink {[ d := port ]} (self st)) st)).
Proof.
  intros He. unfold downlink_setitem. run. rewrite He.
  rewrite decide_False by (rewrite lookup_empty; by intros [? ?]).
  rewrite decide_True by done. cbn.
  unfold with_calls, with_self. cbn.
  by rewrite insert_empty, <- app_assoc.
Qed.

(** Binding blocks that are not bound yet as uplink entries. *)
Lemma uplink_insert_loop bs st :
  NoDup bs →
  (∀ b, b ∈ bs → _uplink (self st) !! b = None) →
  for_each bs
    (λ block, let* l := this in uplink_setitem block (RadioPort_new l block)) st
  = (Return tt,
     with_calls (calls st
                 ++ ((λ b, send_add_lvap (radio b) (addr (self st)) b Merge)
                       <$> bs))
       (with_self
          (with_uplink (bind_uplinks (self st) bs (_uplink (self st)))
             (self st)) st)).
Proof.
  revert st. induction bs as [|b bs IH]; intros st Hnd Hall.
  - destruct st as [[] ? ? ?]. unfold with_calls, with_self. cbn.
    by rewrite app_nil_r.
  - apply list.NoDup_cons in Hnd as [Hb Hnd].
    cbn [for_each]. unfold bind at 1. unfold bind at 1, this at 1.
    unfold uplink_setitem at 1, bind at 1, this at 1.
    rewrite (Hall b) by apply list_elem_of_here.
    rewrite decide_False by (by intros [? ?]).
    unfold bind at 1, update at 1, call at 1, modify. proj.
    rewrite IH; [|done|].
    + unfold with_calls, with_self, bind_uplinks, RadioPort_new. proj.
      cbn [fmap list_fmap foldl]. by rewrite <- app_assoc.
    + intros b' Hin. proj. rewrite lookup_insert_ne.
      * apply Hall. by apply list_elem_of_further.
      * by intros ->.
Qed.

Lemma dom_bind_uplinks l bs (m : gmap ResourceBlock RadioPort) :
  dom (bind_uplinks l bs m) = dom m ∪ list_to_set bs.
Proof.
  revert m. induction bs as [|b bs IH]; intros m; cbn.
  - by rewrite (right_id_L ∅ (∪)).
  - unfold bind_uplinks in IH. rewrite IH, dom_insert_L.
    by rewrite (comm_L (∪) {[ b ]}), <- (assoc_L (∪)).
Qed.

Lemma bind_uplinks_lookup l bs b v :
  bind_uplinks l bs ∅ !! b = Some v → v = RadioPort_new l b.
Proof.
  revert b v. induction bs as [|b' bs IH] using rev_ind; intros b v.
  - cbn. by rewrite lookup_empty.
  - unfold bind_uplinks. rewrite foldl_app. cbn.
    destruct (decide (b' = b)) as [->|Hne].
    + rewrite lookup_insert_eq. by intros [= <-].
    + rewrite lookup_insert_ne by done. apply IH.
Qed.

Lemma keys_singleton (d : ResourceBlock) (port : RadioPort) :
  keys ({[ d := port ]} : gmap ResourceBlock RadioPort) = [d].
Proof. unfold keys. by rewrite map_to_list_singleton. Qed.

Lemma current_pool l :
  (list_to_set (keys (_downlink l) ++ keys (_uplink l)) : ResourcePool)
  = dom (_downlink l) ∪ dom (_uplink l).
Proof. by rewrite list_to_set_app_L, !list_to_set_keys. Qed.

Lemma wtp_singleton l d port :
  _downlink l = {[ d := port ]} → wtp l = Some (radio d).
Proof. intros Hd. unfold wtp. by rewrite Hd, keys_singleton. Qed.

(** The setter on a pool that is not empty and differs from the current
    binding: every entry is deleted, one block [d] of the pool is taken
    out and bound as the downlink, and, if the access point of [d] has a
    switch port named [empower0], the flows are installed and the other
    blocks are bound as uplinks; if it has none, [set_tables] raises the
    KeyError of [self.ports[0]] and the other blocks stay unbound. *)
Lemma downlink_set_pool_rebind st r :
  let p := ref_pool st r in
  let l0 := self st in
  p ≠ ∅ →
  dom (_downlink l0) ∪ dom (_uplink l0) ≠ p →
  ∃ d, d ∈ p ∧
    let rest := p ∖ {[ d ]} in
    let vp := virtual_ports (radio d) (wtp_ports (wtps st (radio d))) ∅ in
    let bound :=
      with_ports vp
        (with_downlink {[ d := RadioPort_new l0 d ]} (with_uplink ∅ l0)) in
    let torn :=
      calls st ++ clear_events l0
      ++ del_events (wtps st) (map_to_list (_downlink l0))
      ++ del_events (wtps st) (map_to_list (_uplink l0))
      ++ [send_add_lvap (radio d) (addr l0) d Replace;
          send_set_port (radio d) (RadioPort_new l0 d)] in
    downlink_set_pool r st
    = match vp !! 0%nat with
      | None =>
          (Raise (KeyError (KInt 0)),
           {| self := bound; wtps := wtps st;
              heap := heap_after st r rest; calls := torn |})
      | Some port =>
          (Return tt,
           {| self := with_uplink (bind_uplinks l0 (elements rest) ∅) bound;
              wtps := wtps st; heap := heap_after st r rest;
              calls := torn
                       ++ [add_station_flows (addr l0) (radio d)
                             (ovs_port_id port)]
                       ++ ((λ b, send_add_lvap (radio b) (addr l0) b Merge)
                             <$> elements rest) |})
      end.
Proof.
  intros p l0 Hne Hcur.
  destruct (pool_pop_nonempty p Hne) as (d & Hd & Hpop).
  exists d. split; [done|]. intros rest vp bound torn.
  unfold downlink_set_pool. unfold bind at 1, this at 1.
  unfold bind at 1. rewrite pool_read_eq. rewrite current_pool.
  rewrite decide_False by done.
  unfold bind at 1. rewrite clear_tables_eq. proj.
  unfold bind at 1. unfold bind at 1, this at 1.
  rewrite downlink_delete_all. proj.
  unfold bind at 1. unfold bind at 1, this at 1.
  rewrite uplink_delete_all. proj.
  unfold bind at 1. rewrite (pool_pop_ref_eq _ r d) by exact Hpop. proj.
  match goal with
  | |- context [heap_after ?s r (ref_pool ?s r ∖ {[ d ]})] =>
      change (heap_after s r (ref_pool s r ∖ {[ d ]}))
        with (heap_after st r rest);
      change (ref_pool s r ∖ {[ d ]}) with rest
  end.
  unfold bind at 1. unfold bind at 1, this at 1.
  rewrite downlink_setitem_empty by done. proj.
  unfold bind at 1. rewrite set_ports_eq. proj.
  rewrite (wtp_singleton _ d (RadioPort_new l0 d)) by reflexivity.
  fold vp.
  unfold bind at 1. rewrite set_tables_eq. proj.
  rewrite (wtp_singleton _ d (RadioPort_new l0 d)) by reflexivity.
  destruct (vp !! 0%nat) as [port|] eqn:Hvp.
  - proj. unfold bind at 1. rewrite pool_read_eq.
    rewrite (ref_pool_after st _ r rest) by reflexivity.
    rewrite uplink_insert_loop.
    + proj. unfold torn, bound, l0. rewrite <- !app_assoc. reflexivity.
    + apply NoDup_elements.
    + intros b _. proj. apply lookup_empty.
  - unfold torn, bound, l0. rewrite <- !app_assoc. reflexivity.
Qed.

(** The setter on a pool equal to the current binding: the virtual ports
    are rebuilt and the flows removed, and then installed again if the
    access point of the downlink block has a switch port named [empower0];
    if it has none, [set_tables] raises the KeyError of [self.ports[0]]. *)
Lemma downlink_set_pool_refresh st r :
  dom (_downlink (self st)) ∪ dom (_uplink (self st)) = ref_pool st r →
  downlink_set_pool r st
  = match wtp (self st) with
    | None => (Return tt, with_self (with_ports ∅ (self st)) st)
    | Some w =>
        let vp := virtual_ports w (wtp_ports (wtps st w)) ∅ in
        let cleared :=
          calls st ++ [remove_station_flows (addr (self st)) w] in
        match vp !! 0%nat with
        | None =>
            (Raise (KeyError (KInt 0)),
             with_calls cleared (with_self (with_ports vp (self st)) st))
        | Some port =>
            (Return tt,
             with_calls
               (cleared ++ [add_station_flows (addr (self st)) w
                              (ovs_port_id port)])
               (with_self (with_ports vp (self st)) st))
        end
    end.
Proof.
  intros Hcur.
  unfold downlink_set_pool. unfold bind at 1, this at 1.
  unfold bind at 1. rewrite pool_read_eq, current_pool.
  rewrite decide_True by done.
  unfold bind at 1. rewrite set_ports_eq. proj.
  unfold bind at 1. rewrite clear_tables_eq. proj.
  rewrite set_tables_eq. proj. unfold clear_events.
  change (wtp (with_ports ?x (self st))) with (wtp (self st)).
  destruct (wtp (self st)) as [w|]; cbn zeta.
  - destruct (virtual_ports w (wtp_ports (wtps st w)) ∅ !! 0%nat);
      proj; by rewrite <- ?app_assoc.
  - by rewrite app_nil_r.
Qed.

Lemma downlink_set_falsy st downlink :
  truthy st downlink = false → downlink_set downlink st = (Return tt, st).
Proof. intros Ht. unfold downlink_set, bind, get. by rewrite Ht. Qed.

Lemma downlink_set_accepted st downlink r :
  pool_of_arg downlink = Some r → ref_pool st r ≠ ∅ →
  downlink_set downlink st = downlink_set_pool r st.
Proof.
  intros Hr Hne. unfold downlink_set, bind at 1, get.
  destruct downlink; simplify_eq/=; [done|].
  unfold pool_truthy. by rewrite bool_decide_eq_true_2.
Qed.

(** The setter never touches the pool objects of the callers when it is
    handed a lone block. *)
Lemma downlink_set_block_heap st b :
  heap (downlink_set (VBlock b) st).2 = heap st.
Proof.
  rewrite (downlink_set_accepted st (VBlock b) (Owned {[ b ]}));
    [|done|cbn; set_solver].
  destruct (decide (dom (_downlink (self st)) ∪ dom (_uplink (self st))
                    = {[ b ]})) as [Heq|Hne].
  - rewrite downlink_set_pool_refresh by done.
    destruct (wtp (self st)); [|done]. cbn zeta.
    by destruct (virtual_ports _ _ _ !! 0%nat).
  - destruct (downlink_set_pool_rebind st (Owned {[ b ]})) as (d & _ & ->);
      [cbn; set_solver|done|].
    by destruct (virtual_ports _ _ _ !! 0%nat).
Qed.

(** The whole rebinding, for access points with their switch port.  If
    the access point of every block of the requested pool has a switch
    port named [empower0], the setter on a pool that is not empty and
    differs from the current binding returns; it has sent one delete
    message per entry bound before whose access point is connected, bound
    one block [d] of the pool alone on the downlink with a default port
    and one add-client message with the replace flag, and bound every
    other block of the pool on the uplink with one add-client message with
    the merge flag each. *)
Lemma downlink_set_rebind st downlink r :
  pool_of_arg downlink = Some r →
  let p := ref_pool st r in
  let l0 := self st in
  p ≠ ∅ →
  dom (_downlink l0) ∪ dom (_uplink l0) ≠ p →
  (∀ b, b ∈ p →
        is_Some (virtual_ports (radio b) (wtp_ports (wtps st (radio b))) ∅
                   !! 0%nat)) →
  let res := downlink_set downlink st in
  ∃ d port, d ∈ p ∧
    res.1 = Return tt ∧
    _downlink (self res.2) = {[ d := RadioPort_new l0 d ]} ∧
    dom (_uplink (self res.2)) = p ∖ {[ d ]} ∧
    (∀ b v, _uplink (self res.2) !! b = Some v → v = RadioPort_new l0 b) ∧
    calls res.2
    = calls st ++ clear_events l0
      ++ del_events (wtps st) (map_to_list (_downlink l0))
      ++ del_events (wtps st) (map_to_list (_uplink l0))
      ++ [send_add_lvap (radio d) (addr l0) d Replace;
          send_set_port (radio d) (RadioPort_new l0 d)]
      ++ [add_station_flows (addr l0) (radio d) port]
      ++ ((λ b, send_add_lvap (radio b) (addr l0) b Merge)
            <$> elements (p ∖ {[ d ]})).
Proof.
  intros Hr p l0 Hne Hcur Hports res. subst res.
  rewrite (downlink_set_accepted st downlink r Hr Hne).
  destruct (downlink_set_pool_rebind st r Hne Hcur) as (d & Hd & Heq).
  cbn zeta in Heq. rewrite Heq. clear Heq.
  destruct (Hports d Hd) as [port ->].
  exists d, (ovs_port_id port). proj.
  split_and!; try done.
  - by rewrite dom_bind_uplinks, dom_empty_L, list_to_set_elements_L,
      (left_id_L ∅ (∪)).
  - apply bind_uplinks_lookup.
  - by rewrite <- !app_assoc.
Qed.

(** The whole refresh, for an access point with its switch port.  If
    the access point of the downlink block has a switch port named
    [empower0], the setter on a pool equal to the current binding returns;
    the downlink and uplink tables are as before, the virtual port is
    rebuilt, and the only collaborator calls are the removal and the
    installation of the flows: no add-client and no delete-client message
    is sent. *)
Lemma downlink_set_refresh st downlink r w port :
  pool_of_arg downlink = Some r →
  ref_pool st r ≠ ∅ →
  dom (_downlink (self st)) ∪ dom (_uplink (self st)) = ref_pool st r →
  wtp (self st) = Some w →
  virtual_ports w (wtp_ports (wtps st w)) ∅ !! 0%nat = Some port →
  let res := downlink_set downlink st in
  res.1 = Return tt ∧
  _downlink (self res.2) = _downlink (self st) ∧
  _uplink (self res.2) = _uplink (self st) ∧
  ports (self res.2) = virtual_ports w (wtp_ports (wtps st w)) ∅ ∧
  heap res.2 = heap st ∧
  calls res.2
  = calls st ++ [remove_station_flows (addr (self st)) w;
                 add_station_flows (addr (self st)) w (ovs_port_id port)] ∧
  downlink_set downlink res.2
  = (Return tt,
     with_calls (calls res.2
                 ++ [remove_station_flows (addr (self st)) w;
                     add_station_flows (addr (self st)) w (ovs_port_id port)])
       res.2).
Proof.
  intros Hr Hne Hcur Hw Hvp res. subst res.
  rewrite (downlink_set_accepted st downlink r Hr Hne).
  rewrite (downlink_set_pool_refresh st r Hcur), Hw. cbn zeta. rewrite Hvp.
  proj. split_and!; try done.
  - by rewrite <- app_assoc.
  - erewrite downlink_set_accepted; [|exact Hr|by destruct r].
    rewrite downlink_set_pool_refresh by (by destruct r). proj.
    change (wtp (with_ports ?x (self st))) with (wtp (self st)).
    rewrite Hw. cbn zeta. rewrite Hvp. proj. by rewrite <- !app_assoc.
Qed.

(** C3 at a pool of two blocks of an access point that reports no switch
    port named [empower0].  The setter binds one block of the pool as the
    downlink and then raises the KeyError of [self.ports[0]] from
    [set_tables]: the other block, which the docstring of the setter wants
    bound as uplink, is left in the pool and the uplink table is empty. *)
Lemma C3_rebind_stops_after_downlink :
  let st := lvap_state unbound_lvap {[ block_c; block_d ]} in
  let r := downlink_set (VPool 0) st in
  r.1 = Raise (KeyError (KInt 0)) ∧
  _downlink (self r.2) = {[ block_c := RadioPort_new unbound_lvap block_c ]} ∧
  heap r.2 0%nat = {[ block_d ]} ∧
  _uplink (self r.2) = ∅ ∧
  calls r.2 = [send_add_lvap 2%N 99%N block_c Replace;
               send_set_port 2%N (RadioPort_new unbound_lvap block_c)].
Proof. split_and!; vm_compute; reflexivity. Qed.

(** C4 at an LVAP whose downlink block is on an access point that reports
    no switch port named [empower0].  Assigning the block it is bound to
    takes the refresh path, which, by its comment, is to send the
    configuration of ports and tables again and return: the flows are
    removed, and then [set_tables] raises the KeyError of [self.ports[0]]
    before it installs them.  No add-client or delete-client message is
    sent and the tables are as before. *)
Lemma C4_refresh_raises :
  let st := lvap_state lvap_on_c ∅ in
  let r := downlink_set (VBlock block_c) st in
  dom (_downlink (self st)) ∪ dom (_uplink (self st)) = {[ block_c ]} ∧
  r.1 = Raise (KeyError (KInt 0)) ∧
  calls r.2 = [remove_station_flows 99%N 2%N] ∧
  _downlink (self r.2) = _downlink (self st) ∧
  _uplink (self r.2) = _uplink (self st).
Proof.
  split_and!; vm_compute; reflexivity.
Qed.

Section handover.
Context {ext : Externals}.

(** C5.  For an LVAP with a downlink binding, assigning an access point
    whose pool of supported blocks has nothing in common with the pool of
    the one default block of the LVAP returns without raising and changes
    nothing: the tables, the virtual ports, the pool objects and the trace
    of collaborator calls are as before. *)
Theorem C5_wtp_set_no_match st target :
  _downlink (self st) ≠ ∅ →
  (∀ default_block,
     head (keys (_downlink (self st))) = Some default_block →
     pool_and (wtp_supports (wtps st target)) {[ default_block ]} = ∅) →
  wtp_set target st = (Return tt, st).
Proof.
  intros Hbound Hempty. unfold wtp_set, bind at 1, get.
  destruct (keys (_downlink (self st))) as [|b bs] eqn:Hk.
  { by apply keys_nil in Hk. }
  replace (list_to_set [b] : ResourcePool)
    with ({[ b ]} : ResourcePool) by (cbn; by rewrite (right_id_L ∅ (∪))).
  rewrite (Hempty b eq_refl). unfold pool_truthy.
  rewrite bool_decide_eq_false_2 by (by intros Hn; apply Hn).
  unfold scheduled_on_set. by apply downlink_set_falsy.
Qed.

End handover.

Lemma C5_wtp_set_no_match_witness :
  wtp_set (ext := sample_externals) 3%N (lvap_state bound_lvap ∅)
  = (Return tt, lvap_state bound_lvap ∅).
Proof.
  apply (C5_wtp_set_no_match (ext := sample_externals)
           (lvap_state bound_lvap ∅) 3%N).
  - apply (bool_decide_unpack _). by vm_compute.
  - intros b Hb. vm_compute in Hb. injection Hb as <-. by vm_compute.
Defined.

(** C9.  On the rebind path, with a pool object handed to the setter, the
    setter takes exactly one block out of the caller's pool, the block it
    binds as the downlink, and leaves the other pool objects alone; when
    it returns, the caller's pool equals the set of the blocks bound as
    uplinks.  An argument that is false, a pool equal to the current
    binding and a lone block leave every pool object as it was. *)
Theorem C9_downlink_set_argument st downlink :
  let r := downlink_set downlink st in
  let current := dom (_downlink (self st)) ∪ dom (_uplink (self st)) in
  (∀ l, downlink = VPool l → heap st l ≠ ∅ → current ≠ heap st l →
     ∃ d, d ∈ heap st l ∧
          dom (_downlink (self r.2)) = {[ d ]} ∧
          heap r.2 l = heap st l ∖ {[ d ]} ∧
          (∀ l', l' ≠ l → heap r.2 l' = heap st l') ∧
          (r.1 = Return tt → dom (_uplink (self r.2)) = heap r.2 l)) ∧
  (truthy st downlink = false → r = (Return tt, st)) ∧
  (∀ l, downlink = VPool l → current = heap st l → heap r.2 = heap st) ∧
  (∀ b, downlink = VBlock b → heap r.2 = heap st).
Proof.
  intros r current. subst r current. split_and!.
  - intros l -> Hne Hcur.
    rewrite (downlink_set_accepted st (VPool l) (Aliased l)) by done.
    destruct (downlink_set_pool_rebind st (Aliased l) Hne Hcur)
      as (d & Hd & Heq).
    cbn zeta in Heq. rewrite Heq. clear Heq. exists d.
    cbn [ref_pool heap_after].
    destruct (virtual_ports _ _ _ !! 0%nat) as [port|]; proj.
    + split_and!; try done.
      * apply dom_singleton_L.
      * by rewrite fn_lookup_insert.
      * intros l' Hl'. by rewrite fn_lookup_insert_ne.
      * intros _. rewrite fn_lookup_insert.
        by rewrite dom_bind_uplinks, dom_empty_L, list_to_set_elements_L,
          (left_id_L ∅ (∪)).
    + split_and!; try done.
      * apply dom_singleton_L.
      * by rewrite fn_lookup_insert.
      * intros l' Hl'. by rewrite fn_lookup_insert_ne.
  - apply downlink_set_falsy.
  - intros l -> Hcur.
    destruct (decide (heap st l = ∅)) as [He|Hne].
    + rewrite downlink_set_falsy; [done|].
      cbn. unfold pool_truthy. rewrite He.
      by rewrite bool_decide_eq_false_2 by (by intros Hn; apply Hn).
    + rewrite (downlink_set_accepted st (VPool l) (Aliased l)) by done.
      rewrite downlink_set_pool_refresh by done.
      destruct (wtp (self st)); [|done]. cbn zeta.
      by destruct (virtual_ports _ _ _ !! 0%nat).
  - intros b ->. apply downlink_set_block_heap.
Qed.

Lemma C9_downlink_set_argument_witness :
  let st := lvap_state unbound_lvap {[ block_a; block_b ]} in
  let r := downlink_set (VPool 0) st in
  r.1 = Return tt ∧
  ∃ d, d ∈ ({[ block_a; block_b ]} : ResourcePool) ∧
       dom (_downlink (self r.2)) = {[ d ]} ∧
       heap r.2 0%nat = {[ block_a; block_b ]} ∖ {[ d ]} ∧
       dom (_uplink (self r.2)) = heap r.2 0%nat.
Proof.
  intros st r.
  assert (Hret : r.1 = Return tt) by (by vm_compute).
  split; [exact Hret|].
  destruct (C9_downlink_set_argument st (VPool 0)) as (Hrebind & _).
  destruct (Hrebind 0%nat eq_refl) as (d & Hd & Hdown & Hheap & _ & Hup).
  - apply (bool_decide_unpack _). by vm_compute.
  - apply (bool_decide_unpack _). by vm_compute.
  - exists d. split_and!; [exact Hd|exact Hdown|exact Hheap|exact (Hup Hret)].
Defined.

End lvap_theory.

(** ** More on the LVAP *)

Module lvap_extra.
Import lvap lvap_theory.

(** The virtual ports after the loop of [set_ports]: the index 0 holds the
    descriptor of the last switch port named [empower0], every other index
    is as before. *)
Lemma virtual_ports_lookup w ps init :
  (∀ i, i ≠ 0%nat → virtual_ports w ps init !! i = init !! i) ∧
  virtual_ports w ps init !! 0%nat
  = match list.last (empower_ports ps) with
    | Some p => Some (virtual_port_on w p)
    | None => init !! 0%nat
    end.
Proof.
  induction ps as [|p ps [IHo IH0]] using rev_ind; [done|].
  unfold virtual_ports, empower_ports in *.
  rewrite foldl_app, list.filter_app. cbn [foldl].
  destruct (decide (iface p ≠ "empower0")) as [Hne|He].
  - rewrite filter_cons_False, filter_nil, app_nil_r by done. done.
  - apply dec_stable in He.
    rewrite filter_cons_True, filter_nil, last_snoc by done. split.
    + intros i Hi. rewrite lookup_insert_ne by done. by apply IHo.
    + by rewrite lookup_insert_eq.
Qed.

(** X1.  [set_ports] always returns and leaves at most one virtual port,
    under the index 0: none for an LVAP without a downlink block or on an
    access point without a switch port named [empower0], else the
    descriptor built on the last such switch port.  Nothing else of the
    state changes. *)
Theorem X1_set_ports_result st :
  let r := set_ports st in
  r.1 = Return tt ∧
  (∀ i, i ≠ 0%nat → ports (self r.2) !! i = None) ∧
  ports (self r.2) !! 0%nat
  = match wtp (self st) with
    | None => None
    | Some w =>
        match list.last (empower_ports (wtp_ports (wtps st w))) with
        | None => None
        | Some p => Some (virtual_port_on w p)
        end
    end ∧
  r.2 = with_self (with_ports (ports (self r.2)) (self st)) st.
Proof.
  intros r. subst r. rewrite set_ports_eq. proj. split_and!; try done.
  - intros i Hi. destruct (wtp (self st)) as [w|]; [|done].
    by rewrite (proj1 (virtual_ports_lookup w _ ∅) i Hi).
  - destruct (wtp (self st)) as [w|]; [|done].
    rewrite (proj2 (virtual_ports_lookup w _ ∅)).
    by destruct (list.last _).
Qed.

(** X2.  [set_ports] does not depend on the virtual ports it finds, and
    running it twice in a row is running it once. *)
Theorem X2_set_ports_again st vp :
  set_ports (with_self (with_ports vp (self st)) st) = set_ports st ∧
  (set_ports ;; set_ports) st = set_ports st.
Proof.
  split.
  - by rewrite !set_ports_eq.
  - unfold bind. by rewrite !set_ports_eq.
Qed.

(** X3.  [set_ports] followed by [set_tables], as the setter of [downlink]
    runs them: for an LVAP without a downlink block nothing is called; on an
    access point with a switch port named [empower0] the flows of the
    station are installed on the last such port; on an access point without
    one [set_tables] raises the KeyError of [self.ports[0]] and nothing is
    called. *)
Theorem X3_set_ports_set_tables st :
  let r := (set_ports ;; set_tables) st in
  match wtp (self st) with
  | None => r.1 = Return tt ∧ calls r.2 = calls st
  | Some w =>
      match list.last (empower_ports (wtp_ports (wtps st w))) with
      | Some p =>
          r.1 = Return tt ∧
          calls r.2 = calls st ++ [add_station_flows (addr (self st)) w (port_id p)]
      | None => r.1 = Raise (KeyError (KInt 0)) ∧ calls r.2 = calls st
      end
  end.
Proof.
  intros r. subst r. unfold bind. rewrite set_ports_eq, set_tables_eq. proj.
  change (wtp (with_ports ?x (self st))) with (wtp (self st)).
  destruct (wtp (self st)) as [w|]; [|done].
  rewrite (proj2 (virtual_ports_lookup w _ ∅)).
  by destruct (list.last _).
Qed.

(** X4.  Writing a new encapsulation address, association id or SSID
    stores the value and leaves both tables as they are, whatever comes
    next; all it adds to the trace are add-client messages.  When the
    access point of every downlink and uplink entry has a connection, the
    setter returns after exactly one message for each entry; when one of
    them has none, it raises the AttributeError of the call on the missing
    connection, after fewer messages than there are entries. *)
Theorem X4_attribute_set_new st :
  let n := (size (_downlink (self st)) + size (_uplink (self st)))%nat in
  let reachable :=
    ∀ port, port ∈ values (_downlink (self st)) ++ values (_uplink (self st)) →
            wtp_connection (wtps st (radio (port_block port))) ≠ NoConnection in
  let sent (r : Outcome unit * State) :=
    _downlink (self r.2) = _downlink (self st) ∧
    _uplink (self r.2) = _uplink (self st) ∧
    ∃ c, calls r.2 = calls st ++ c ∧ Forall is_add_lvap c ∧
         (reachable → r.1 = Return tt ∧ length c = n) ∧
         (¬ reachable →
          r.1 = Raise (AttributeError "send_add_lvap") ∧ (length c < n)%nat) in
  (∀ a, _encap (self st) ≠ a →
        sent (encap_set (Some a) st) ∧
        _encap (self (encap_set (Some a) st).2) = a) ∧
  (∀ i, _assoc_id (self st) ≠ i →
        sent (assoc_id_set i st) ∧
        _assoc_id (self (assoc_id_set i st).2) = i) ∧
  (∀ s, _ssid (self st) ≠ s →
        sent (ssid_set s st) ∧ _ssid (self (ssid_set s st).2) = s).
Proof.
  intros n reachable sent. subst n reachable sent. cbn beta.
  destruct (attribute_set_resend st) as (Hencap & Hassoc & Hssid).
  split_and!.
  - intros a Hne. rewrite (Hencap a Hne).
    destruct (resend_add_lvap_outcome (with_self (with_encap a (self st)) st))
      as (c & -> & Hall & _ & Hok & Hko).
    proj. split_and!; try done. by exists c.
  - intros i Hne. rewrite (Hassoc i Hne).
    destruct (resend_add_lvap_outcome (with_self (with_assoc_id i (self st)) st))
      as (c & -> & Hall & _ & Hok & Hko).
    proj. split_and!; try done. by exists c.
  - intros s Hne. rewrite (Hssid s Hne).
    destruct (resend_add_lvap_outcome (with_self (with_ssid s (self st)) st))
      as (c & -> & Hall & _ & Hok & Hko).
    proj. split_and!; try done. by exists c.
Qed.

(** An LVAP bound to [block_a] on the downlink and, on the uplink, to a
    block of access point 3, which has no connection. *)
Lemma X4_attribute_set_new_witness :
  let st := lvap_state bound_lvap ∅ in
  let r := assoc_id_set 1 st in
  let far := lvap_state
               (with_uplink {[ block_e := RadioPort_new unbound_lvap block_e ]}
                  bound_lvap) ∅ in
  (r.1 = Return tt ∧ _assoc_id (self r.2) = 1 ∧
   ∃ c, calls r.2 = calls st ++ c ∧ length c = 2%nat ∧ Forall is_add_lvap c) ∧
  (assoc_id_set 1 far).1 = Raise (AttributeError "send_add_lvap") ∧
  _assoc_id (self (assoc_id_set 1 far).2) = 1.
Proof.
  intros st r far. split.
  - destruct (X4_attribute_set_new st) as (_ & Hassoc & _).
    destruct (Hassoc 1) as ((_ & _ & c & Hc & Hall & Hok & _) & Hval).
    { by vm_compute. }
    destruct Hok as [Hret Hlen].
    { apply (proj1 (served_eq_iff (wtps st)
                      (values (_downlink (self st))
                       ++ values (_uplink (self st))))).
      vm_compute. reflexivity. }
    split_and!; [exact Hret|exact Hval|].
    exists c. split_and!; [exact Hc|exact Hlen|exact Hall].
  - destruct (X4_attribute_set_new far) as (_ & Hassoc & _).
    destruct (Hassoc 1) as ((_ & _ & c & _ & _ & _ & Hko) & Hval).
    { by vm_compute. }
    split; [|exact Hval]. apply Hko. intros Hall.
    apply (Hall (RadioPort_new unbound_lvap block_e)); [|by vm_compute].
    vm_compute. right. left.
Defined.

(** The value a setter is given is the value of the attribute afterwards,
    whether the setter returned or raised. *)
Lemma attribute_set_stored st :
  (∀ a, _encap (self (encap_set (Some a) st).2) = a) ∧
  (∀ i, _assoc_id (self (assoc_id_set i st).2) = i) ∧
  (∀ s, _ssid (self (ssid_set s st).2) = s).
Proof.
  destruct (attribute_set_same st) as (Hencap' & Hassoc' & Hssid').
  destruct (attribute_set_resend st) as (Hencap & Hassoc & Hssid).
  split_and!.
  - intros a. destruct (decide (_encap (self st) = a)) as [<-|Hne].
    + by rewrite Hencap'.
    + rewrite (Hencap a Hne).
      by destruct (resend_add_lvap_outcome
                     (with_self (with_encap a (self st)) st)) as (c & -> & _).
  - intros i. destruct (decide (_assoc_id (self st) = i)) as [<-|Hne].
    + by rewrite Hassoc'.
    + rewrite (Hassoc i Hne).
      by destruct (resend_add_lvap_outcome
                     (with_self (with_assoc_id i (self st)) st)) as (c & -> & _).
  - intros v. destruct (decide (_ssid (self st) = v)) as [<-|Hne].
    + by rewrite Hssid'.
    + rewrite (Hssid v Hne).
      by destruct (resend_add_lvap_outcome
                     (with_self (with_ssid v (self st)) st)) as (c & -> & _).
Qed.

(** X5.  Each of the three attribute setters, run a second time with the
    value it was just given, changes nothing and calls nothing; for the
    encapsulation address that holds for [None] as well, which stands for
    the zero address. *)
Theorem X5_attribute_set_twice st a i s :
  encap_set a (encap_set a st).2 = (Return tt, (encap_set a st).2) ∧
  assoc_id_set i (assoc_id_set i st).2 = (Return tt, (assoc_id_set i st).2) ∧
  ssid_set s (ssid_set s st).2 = (Return tt, (ssid_set s st).2).
Proof.
  destruct (attribute_set_stored st) as (Hencap & Hassoc & Hssid).
  split_and!.
  - set (a' := match a with None => 0%N | Some x => x end).
    change (encap_set a) with (encap_set (Some a')).
    specialize (Hencap a'). revert Hencap.
    generalize ((encap_set (Some a') st).2). intros st' <-.
    apply (proj1 (attribute_set_same st')).
  - specialize (Hassoc i). revert Hassoc.
    generalize ((assoc_id_set i st).2). intros st' <-.
    apply (proj1 (proj2 (attribute_set_same st'))).
  - specialize (Hssid s). revert Hssid.
    generalize ((ssid_set s st).2). intros st' <-.
    apply (proj2 (proj2 (attribute_set_same st'))).
Qed.

Section new_lvap.
Context {ext : Externals}.

(** X6.  An LVAP as its constructor leaves it is bound to nothing: it has
    no access point and no port, writing its attributes calls no
    collaborator, the flow-table methods do nothing, and assigning an
    access point to it raises StopIteration and changes nothing. *)
Theorem X6_new_lvap a b w h c :
  let st := {| self := LVAP_new a b; wtps := w; heap := h; calls := c |} in
  wtp (self st) = None ∧ port (self st) = None ∧
  (∀ e, calls (encap_set e st).2 = c) ∧
  (∀ i, calls (assoc_id_set i st).2 = c) ∧
  (∀ s, calls (ssid_set s st).2 = c) ∧
  set_tables st = (Return tt, st) ∧ clear_tables st = (Return tt, st) ∧
  (∀ target, wtp_set target st = (Raise StopIteration, st)).
Proof.
  intros st. subst st. unfold LVAP_new. split_and!; try done.
  - intros e. unfold encap_set, bind, this. proj. case_decide; [done|].
    unfold bind, update, modify. rewrite resend_add_lvap_eq. proj.
    unfold values. rewrite !map_to_list_empty. cbn. by rewrite app_nil_r.
  - intros i. unfold assoc_id_set, bind, this. proj. case_decide; [done|].
    unfold bind, update, modify. rewrite resend_add_lvap_eq. proj.
    unfold values. rewrite !map_to_list_empty. cbn. by rewrite app_nil_r.
  - intros s. unfold ssid_set, bind, this. proj. case_decide; [done|].
    unfold bind, update, modify. rewrite resend_add_lvap_eq. proj.
    unfold values. rewrite !map_to_list_empty. cbn. by rewrite app_nil_r.
Qed.

End new_lvap.

(** X7.  The setter of [downlink] tests the truth of its argument before
    its type: an argument that is neither a pool nor a block raises the
    TypeError only if it is true, and is a silent no-op if it is false
    ([None], 0, the empty string, an empty dict); the state is unchanged
    either way. *)
Theorem X7_downlink_set_other_type st v :
  (∀ l, v ≠ VPool l) → (∀ b, v ≠ VBlock b) →
  downlink_set v st
  = if truthy st v
    then (Raise (TypeError "Expected ResourcePool, ResourceBlock"), st)
    else (Return tt, st).
Proof.
  intros Hp Hb. unfold downlink_set, bind, get.
  destruct (truthy st v) eqn:Ht; [|done]. cbn.
  destruct v; try done.
  - by destruct (Hb b).
  - by destruct (Hp l).
Qed.

Lemma X7_downlink_set_other_type_witness :
  let st := lvap_state bound_lvap ∅ in
  downlink_set (VInt 5) st
  = (Raise (TypeError "Expected ResourcePool, ResourceBlock"), st) ∧
  downlink_set (VInt 0) st = (Return tt, st) ∧
  downlink_set VNone st = (Return tt, st).
Proof.
  split_and!; by rewrite X7_downlink_set_other_type.
Defined.

(** What every path of the setter of [downlink] leaves of the tables: they
    are as before, or the downlink table holds one default port alone. *)
Lemma downlink_set_tables st v :
  let r := downlink_set v st in
  (_downlink (self r.2) = _downlink (self st) ∧
   _uplink (self r.2) = _uplink (self st)) ∨
  ∃ d, _downlink (self r.2) = {[ d := RadioPort_new (self st) d ]}.
Proof.
  intros r. subst r.
  destruct (truthy st v) eqn:Ht.
  2: { left. by rewrite downlink_set_falsy. }
  destruct (pool_of_arg v) as [p|] eqn:Hp.
  - assert (Hne : ref_pool st p ≠ ∅).
    { destruct v; simplify_eq/=.
      - apply (non_empty_singleton_L b).
      - unfold pool_truthy in Ht. by apply bool_decide_eq_true_1 in Ht. }
    rewrite (downlink_set_accepted st v p Hp Hne).
    destruct (decide (dom (_downlink (self st)) ∪ dom (_uplink (self st))
                      = ref_pool st p)) as [Heq|Hcur].
    + left. rewrite downlink_set_pool_refresh by done.
      destruct (wtp (self st)); [|done]. cbn zeta.
      by destruct (virtual_ports _ _ _ !! 0%nat).
    + right.
      destruct (downlink_set_pool_rebind st p Hne Hcur) as (d & _ & ->).
      exists d. by destruct (virtual_ports _ _ _ !! 0%nat).
  - left. unfold downlink_set, bind, get. rewrite Ht. cbn.
    by destruct v.
Qed.

(** X8.  The setter of [downlink] keeps the downlink table at one entry at
    most: whatever it is given and whether it returns or raises, a table of
    at most one entry is a table of at most one entry afterwards. *)
Theorem X8_downlink_at_most_one st v :
  (size (_downlink (self st)) ≤ 1)%nat →
  (size (_downlink (self (downlink_set v st).2)) ≤ 1)%nat.
Proof.
  intros Hsize.
  destruct (downlink_set_tables st v) as [[-> _]|[d ->]]; [done|].
  by rewrite map_size_singleton.
Qed.

Lemma X8_downlink_at_most_one_witness :
  (size (_downlink (self (downlink_set (VPool 0)
                            (lvap_state bound_lvap {[ block_c; block_d ]})).2))
   ≤ 1)%nat.
Proof.
  apply X8_downlink_at_most_one. vm_compute. lia.
Defined.

(** X9.  The setter of [downlink] never touches the identity and the
    attributes of the client, and it only ever adds to the trace of
    collaborator calls.  The pools of supported blocks are no part of this
    frame: the setter pops from the pool object it is handed, whichever
    object that is. *)
Theorem X9_downlink_set_frame st v :
  let r := downlink_set v st in
  addr (self r.2) = addr (self st) ∧
  bssid (self r.2) = bssid (self st) ∧
  authentication_state (self r.2) = authentication_state (self st) ∧
  association_state (self r.2) = association_state (self st) ∧
  _ssids (self r.2) = _ssids (self st) ∧
  _encap (self r.2) = _encap (self st) ∧
  _assoc_id (self r.2) = _assoc_id (self st) ∧
  _ssid (self r.2) = _ssid (self st) ∧
  ∃ c, calls r.2 = calls st ++ c.
Proof.
  intros r. subst r.
  destruct (truthy st v) eqn:Ht.
  2: { rewrite downlink_set_falsy by done. cbn [snd]. split_and!; try done.
       exists []. by rewrite app_nil_r. }
  destruct (pool_of_arg v) as [p|] eqn:Hp.
  - assert (Hne : ref_pool st p ≠ ∅).
    { destruct v; simplify_eq/=.
      - apply (non_empty_singleton_L b).
      - unfold pool_truthy in Ht. by apply bool_decide_eq_true_1 in Ht. }
    rewrite (downlink_set_accepted st v p Hp Hne).
    destruct (decide (dom (_downlink (self st)) ∪ dom (_uplink (self st))
                      = ref_pool st p)) as [Heq|Hcur].
    + rewrite downlink_set_pool_refresh by done.
      destruct (wtp (self st)); cbn zeta.
      * destruct (virtual_ports _ _ _ !! 0%nat); proj;
          split_and!; try done;
          eexists; rewrite <- ?app_assoc; reflexivity.
      * proj. split_and!; try done. exists []. by rewrite app_nil_r.
    + destruct (downlink_set_pool_rebind st p Hne Hcur) as (d & _ & ->).
      destruct (virtual_ports _ _ _ !! 0%nat); proj;
        split_and!; try done;
          eexists; rewrite <- ?app_assoc; reflexivity.
  - assert (Heq : downlink_set v st
             = (Raise (TypeError "Expected ResourcePool, ResourceBlock"), st)).
    { unfold downlink_set, bind, get. rewrite Ht. cbn. by destruct v. }
    rewrite Heq. cbn [snd]. split_and!; try done.
    exists []. by rewrite app_nil_r.
Qed.

(** X10.  The pool handed to the setter of [downlink] is not the same pool
    afterwards, so assigning the same pool object again is not a refresh.
    After a rebinding that returned, a second assignment of the object does
    nothing at all if the pool had one block, for it is empty now; if it had
    more, the second assignment rebinds: the downlink moves to another block
    of the pool and the block bound first is bound no more, on either
    table. *)
Theorem X10_same_pool_twice st l :
  heap st l ≠ ∅ →
  dom (_downlink (self st)) ∪ dom (_uplink (self st)) ≠ heap st l →
  let r1 := downlink_set (VPool l) st in
  let r2 := downlink_set (VPool l) r1.2 in
  r1.1 = Return tt →
  ((∃ b, heap st l = {[ b ]}) → r2 = (Return tt, r1.2)) ∧
  ((∀ b, heap st l ≠ {[ b ]}) →
   ∃ d d', d ∈ heap st l ∧ d' ∈ heap st l ∧ d' ≠ d ∧
           dom (_downlink (self r1.2)) = {[ d ]} ∧
           dom (_downlink (self r2.2)) = {[ d' ]} ∧
           (d ∉ dom (_uplink (self r2.2))) ∧
           heap r2.2 l = (heap st l ∖ {[ d ]}) ∖ {[ d' ]}).
Proof.
  intros Hne Hcur r1 r2. subst r1 r2.
  rewrite (downlink_set_accepted st (VPool l) (Aliased l)) by done.
  destruct (downlink_set_pool_rebind st (Aliased l) Hne Hcur)
    as (d & Hd & Heq).
  cbn zeta in Heq. rewrite Heq. clear Heq. cbn [ref_pool heap_after] in *.
  destruct (virtual_ports _ _ _ !! 0%nat) as [port|]; [|done].
  intros _. cbn [snd].
  set (rest := heap st l ∖ {[ d ]}).
  match goal with |- context [downlink_set (VPool l) ?s] => set (s1 := s) end.
  assert (Hheap : heap s1 l = rest) by (cbn; by rewrite fn_lookup_insert).
  assert (Hdown : _downlink (self s1) = {[ d := RadioPort_new (self st) d ]})
    by done.
  assert (Hup : dom (_uplink (self s1)) = rest).
  { cbn. by rewrite dom_bind_uplinks, dom_empty_L, list_to_set_elements_L,
      (left_id_L ∅ (∪)). }
  clearbody s1.
  split.
  - intros [b Hb].
    assert (Hrest : rest = ∅).
    { subst rest. rewrite Hb in *. apply elem_of_singleton in Hd as ->.
      apply difference_diag_L. }
    apply downlink_set_falsy. unfold truthy. rewrite Hheap, Hrest.
    unfold pool_truthy. by rewrite bool_decide_eq_false_2 by (by intros Hn; apply Hn).
  - intros Hmany.
    assert (Hrest : rest ≠ ∅).
    { intros He. apply (Hmany d). apply set_eq. intros x.
      rewrite elem_of_singleton. split; [|by intros ->].
      intros Hx. destruct (decide (x = d)) as [|Hxd]; [done|].
      assert (x ∈ rest) as Hin by (subst rest; by apply elem_of_difference;
                                   rewrite elem_of_singleton).
      rewrite He in Hin. by apply not_elem_of_empty in Hin. }
    assert (Hne1 : ref_pool s1 (Aliased l) ≠ ∅) by (cbn [ref_pool]; by rewrite Hheap).
    assert (Hcur1 : dom (_downlink (self s1)) ∪ dom (_uplink (self s1))
                    ≠ ref_pool s1 (Aliased l)).
    { cbn [ref_pool]. rewrite Hheap, Hdown, Hup, dom_singleton_L. intros He.
      assert (d ∈ rest) as Hin by (rewrite <- He; apply elem_of_union_l;
                                   by apply elem_of_singleton).
      subst rest. apply elem_of_difference in Hin as [_ Hin].
      apply Hin. by apply elem_of_singleton. }
    rewrite (downlink_set_accepted s1 (VPool l) (Aliased l)) by done.
    destruct (downlink_set_pool_rebind s1 (Aliased l) Hne1 Hcur1)
      as (d' & Hd' & Heq).
    cbn zeta in Heq. rewrite Heq. clear Heq.
    cbn [ref_pool] in Hd'. rewrite Hheap in Hd'.
    pose proof Hd' as Hd''. subst rest.
    apply elem_of_difference in Hd'' as [Hd1 Hd2].
    rewrite elem_of_singleton in Hd2.
    exists d, d'. split_and!; try done.
    + by rewrite Hdown, dom_singleton_L.
    + destruct (virtual_ports _ _ _ !! 0%nat); cbn; apply dom_singleton_L.
    + destruct (virtual_ports _ _ _ !! 0%nat); cbn.
      * rewrite dom_bind_uplinks, dom_empty_L, list_to_set_elements_L,
          (left_id_L ∅ (∪)).
        cbn [ref_pool]. rewrite Hheap. intros Hin.
        apply elem_of_difference in Hin as [Hin _].
        apply elem_of_difference in Hin as [_ Hin].
        apply Hin. by apply elem_of_singleton.
      * rewrite dom_empty_L. apply not_elem_of_empty.
    + destruct (virtual_ports _ _ _ !! 0%nat); cbn [snd heap heap_after];
        rewrite fn_lookup_insert; cbn [ref_pool]; by rewrite Hheap.
Qed.

Lemma X10_same_pool_twice_witness :
  let st := lvap_state unbound_lvap {[ block_a; block_b ]} in
  let r1 := downlink_set (VPool 0) st in
  let r2 := downlink_set (VPool 0) r1.2 in
  ∃ d d', d' ≠ d ∧
          dom (_downlink (self r1.2)) = {[ d ]} ∧
          dom (_downlink (self r2.2)) = {[ d' ]} ∧
          d ∉ dom (_uplink (self r2.2)).
Proof.
  intros st r1 r2.
  destruct (X10_same_pool_twice st 0%nat) as (_ & Hmany).
  - apply (bool_decide_unpack _). by vm_compute.
  - apply (bool_decide_unpack _). by vm_compute.
  - by vm_compute.
  - destruct Hmany as (d & d' & _ & _ & Hne & H1 & H2 & H3 & _).
    + intros b Hb. apply (f_equal size) in Hb.
      rewrite size_singleton in Hb. vm_compute in Hb. discriminate Hb.
    + exists d, d'. split_and!; [exact Hne|exact H1|exact H2|exact H3].
Defined.

(** X11.  Assigning the same lone block twice: whatever the first
    assignment did, the second one is a refresh.  It leaves both tables as
    they are, and all it calls is the flow-table programmer; no add-client,
    delete-client or port message is sent. *)
Theorem X11_same_block_twice st b :
  let r1 := downlink_set (VBlock b) st in
  let r2 := downlink_set (VBlock b) r1.2 in
  dom (_downlink (self r1.2)) ∪ dom (_uplink (self r1.2)) = {[ b ]} ∧
  _downlink (self r2.2) = _downlink (self r1.2) ∧
  _uplink (self r2.2) = _uplink (self r1.2) ∧
  ∃ c, calls r2.2 = calls r1.2 ++ c ∧ Forall is_flow_call c.
Proof.
  intros r1 r2. subst r1 r2.
  assert (Hb : ref_pool st (Owned {[ b ]}) ≠ ∅)
    by apply (non_empty_singleton_L b).
  assert (Hcur1 : dom (_downlink (self (downlink_set (VBlock b) st).2))
                  ∪ dom (_uplink (self (downlink_set (VBlock b) st).2))
                  = {[ b ]}).
  { rewrite (downlink_set_accepted st (VBlock b) (Owned {[ b ]})) by done.
    destruct (decide (dom (_downlink (self st)) ∪ dom (_uplink (self st))
                      = {[ b ]})) as [Heq|Hcur].
    - rewrite downlink_set_pool_refresh by done.
      destruct (wtp (self st)); cbn zeta; [|done].
      by destruct (virtual_ports _ _ _ !! 0%nat).
    - destruct (downlink_set_pool_rebind st (Owned {[ b ]}) Hb Hcur)
        as (d & Hd & ->).
      cbn [ref_pool] in Hd. apply elem_of_singleton in Hd as ->.
      cbn [ref_pool].
      destruct (virtual_ports _ _ _ !! 0%nat); cbn.
      + rewrite dom_singleton_L, dom_bind_uplinks, dom_empty_L,
          list_to_set_elements_L, difference_diag_L.
        by rewrite !(right_id_L ∅ (∪)).
      + by rewrite dom_singleton_L, dom_empty_L, (right_id_L ∅ (∪)). }
  split; [exact Hcur1|].
  set (s1 := (downlink_set (VBlock b) st).2) in *.
  rewrite (downlink_set_accepted s1 (VBlock b) (Owned {[ b ]})) by done.
  rewrite downlink_set_pool_refresh by done.
  destruct (wtp (self s1)) as [w|]; cbn zeta.
  - destruct (virtual_ports _ _ _ !! 0%nat); proj; split_and!; try done.
    + eexists. split; [by rewrite <- app_assoc|]. by repeat constructor.
    + eexists. split; [done|]. by repeat constructor.
  - proj. split_and!; try done. exists []. by rewrite app_nil_r.
Qed.

Section unbound.
Context {ext : Externals}.

(** X12.  Assigning an access point to an LVAP without a downlink block
    raises StopIteration, from the [next(iter(...))] that looks for the
    default block, and changes nothing. *)
Theorem X12_wtp_set_unbound st target :
  _downlink (self st) = ∅ →
  wtp_set target st = (Raise StopIteration, st).
Proof.
  intros He. unfold wtp_set, bind, get.
  by rewrite (proj2 (keys_nil (_downlink (self st))) He).
Qed.

End unbound.

Lemma X12_wtp_set_unbound_witness :
  wtp_set (ext := sample_externals) 1%N (lvap_state unbound_lvap ∅)
  = (Raise StopIteration, lvap_state unbound_lvap ∅).
Proof. by apply X12_wtp_set_unbound. Defined.

Lemma port_singleton l d p : _downlink l = {[ d := p ]} → port l = Some p.
Proof.
  intros Hd. unfold port, values. by rewrite Hd, map_to_list_singleton.
Qed.

(** X14.  After the setter of [downlink] has taken the rebind path, whether
    it returned or raised, the [wtp] property is the access point of a
    block of the requested pool and the [port] property is the default port
    of that block; when it returned, the virtual port of index 0 sits on
    that access point. *)
Theorem X14_rebind_properties st v p :
  pool_of_arg v = Some p →
  ref_pool st p ≠ ∅ →
  dom (_downlink (self st)) ∪ dom (_uplink (self st)) ≠ ref_pool st p →
  let r := downlink_set v st in
  ∃ d, d ∈ ref_pool st p ∧
       wtp (self r.2) = Some (radio d) ∧
       port (self r.2) = Some (RadioPort_new (self st) d) ∧
       (r.1 = Return tt →
        ∃ vp, ports (self r.2) !! 0%nat = Some vp ∧ dpid vp = radio d).
Proof.
  intros Hp Hne Hcur r. subst r.
  rewrite (downlink_set_accepted st v p Hp Hne).
  destruct (downlink_set_pool_rebind st p Hne Hcur) as (d & Hd & ->).
  exists d. split; [done|].
  destruct (virtual_ports _ _ _ !! 0%nat) as [vp|] eqn:Hvp; cbn [fst snd self].
  - split_and!.
    + by apply (wtp_singleton _ d (RadioPort_new (self st) d)).
    + by apply (port_singleton _ d).
    + intros _. exists vp. split; [done|].
      rewrite (proj2 (virtual_ports_lookup _ _ ∅)) in Hvp.
      destruct (list.last _); by simplify_eq.
  - split_and!; [| |done].
    + by apply (wtp_singleton _ d (RadioPort_new (self st) d)).
    + by apply (port_singleton _ d).
Qed.

Lemma X14_rebind_properties_witness :
  let st := lvap_state unbound_lvap ∅ in
  let r := downlink_set (VBlock block_a) st in
  wtp (self r.2) = Some 1%N ∧
  port (self r.2) = Some (RadioPort_new unbound_lvap block_a).
Proof.
  intros st r.
  destruct (X14_rebind_properties st (VBlock block_a) (Owned {[ block_a ]}))
    as (d & Hd & Hw & Hp & _).
  - reflexivity.
  - apply (bool_decide_unpack _). by vm_compute.
  - apply (bool_decide_unpack _). by vm_compute.
  - cbn [ref_pool] in Hd. apply elem_of_singleton in Hd as ->.
    split; [exact Hw|exact Hp].
Defined.

Lemma X1_set_ports_result_witness :
  ports (self (set_ports (lvap_state bound_lvap ∅)).2) !! 1%nat = None.
Proof.
  destruct (X1_set_ports_result (lvap_state bound_lvap ∅)) as (_ & Hi & _).
  apply Hi. lia.
Defined.

End lvap_extra.

(** ** More on the summary trigger *)

Module summary_extra.
Import summary summary_theory.

Section proofs.
Context {ext : Externals}.

(** X15.  A decoded frame carries the time stamp, sequence number, signal
    strength and length of its entry unchanged; its type is MNGT, CTRL or
    DATA for the type codes 0x00, 0x04 and 0x08 and UNKN for every other
    code; its rate is the rate code itself, except on a block of the band
    [BT_L20], where it is the float that is half the rate code. *)
Theorem X15_frame_decoding st block tenant response :
  _block (self st) = Some block →
  tenants st !! tenant_id (self st) = Some tenant →
  radio block ∈ tenant →
  let r := handle_response response st in
  ∀ (i : nat) recv, response !! i = Some recv →
    ∃ f, frames (self r.2) !! i = Some f ∧
      f_tsft f = e_tsft recv ∧ f_seq f = e_seq recv ∧
      f_rssi f = e_rssi recv ∧ f_length f = e_length recv ∧
      (f_type f = "MNGT" ↔ e_type recv = 0x00) ∧
      (f_type f = "CTRL" ↔ e_type recv = 0x04) ∧
      (f_type f = "DATA" ↔ e_type recv = 0x08) ∧
      (f_type f = "UNKN" ↔ e_type recv ∉ [0x00; 0x04; 0x08]) ∧
      (band block = BT_L20 →
       ∃ q, f_rate f = NFloat q ∧ Qeq (Qmult q (inject_Z 2)) (inject_Z (e_rate recv))) ∧
      (band block ≠ BT_L20 → f_rate f = NInt (e_rate recv)).
Proof.
  intros Hb Ht Hin r i recv Hi. subst r.
  rewrite (handle_response_valid st block tenant response Hb Ht Hin). cbn.
  exists (decode_frame block recv).
  split; [by rewrite list_lookup_fmap, Hi|].
  unfold decode_frame, pt_type; cbn.
  split_and!; try done.
  - repeat case_decide; split; try done; intros; lia.
  - repeat case_decide; split; try done; intros; lia.
  - repeat case_decide; split; try done; intros; lia.
  - rewrite !not_elem_of_cons.
    repeat case_decide; split; try done; intros; try lia;
      split_and!; try lia; apply not_elem_of_nil.
  - intros Hl. rewrite decide_True by done. eexists. split; [done|].
    unfold Qeq. cbn. lia.
  - intros Hl. by rewrite decide_False.
Qed.

End proofs.

Lemma X15_frame_decoding_witness :
  let r := handle_response (ext := sample_externals) [data_entry]
             sample_summary_state in
  ∃ f, frames (self r.2) !! 0%nat = Some f ∧ f_type f = "DATA" ∧
       ∃ q, f_rate f = NFloat q ∧ Qeq (Qmult q (inject_Z 2)) (inject_Z 4).
Proof.
  intros r.
  assert (Hin : radio block_a ∈ ({[ 1%N; 2%N ]} : gset EtherAddress))
    by (apply (bool_decide_unpack _); by vm_compute).
  destruct (X15_frame_decoding (ext := sample_externals) sample_summary_state
              block_a {[ 1%N; 2%N ]} [data_entry] eq_refl eq_refl Hin
              0%nat data_entry eq_refl)
    as (f & Hf & _ & _ & _ & _ & _ & _ & Hdata & _ & Hrate & _).
  exists f. split_and!; [exact Hf|by apply Hdata|by apply Hrate].
Defined.

Section more_proofs.
Context {ext : Externals}.

(** X16.  A response replaces the frames of the module, it does not add to
    them: after two responses in a row the module holds the decoded entries
    of the second alone, and the callback has been called once for each. *)
Theorem X16_response_replaces_frames st block tenant first second :
  _block (self st) = Some block →
  tenants st !! tenant_id (self st) = Some tenant →
  radio block ∈ tenant →
  let r1 := handle_response first st in
  let r2 := handle_response second r1.2 in
  r2.1 = Return tt ∧
  frames (self r2.2) = decode_frame block <$> second ∧
  calls r2.2 = calls st ++ [handle_callback (module_id (self st));
                            handle_callback (module_id (self st))].
Proof.
  intros Hb Ht Hin r1 r2. subst r1 r2.
  rewrite (handle_response_valid st block tenant first Hb Ht Hin). cbn [snd].
  erewrite handle_response_valid; [|exact Hb|exact Ht|exact Hin].
  cbn. by rewrite <- app_assoc.
Qed.

(** Unloading a module that has no block yet. *)
Lemma unload_unbound st :
  _block (self st) = None →
  is_Some (modules st !! module_id (self st))
  ∨ remove_missing (module_id (self st)) = Return tt →
  unload st
  = (Raise (AttributeError "radio"),
     {| self := self st;
        modules := delete (module_id (self st)) (modules st);
        tenants := tenants st; runtime_wtps := runtime_wtps st;
        wtps := wtps st; calls := calls st |}).
Proof.
  intros Hb Hreg. unfold unload, bind at 1, this.
  unfold bind at 1. rewrite remove_module_eq by done. by rewrite Hb.
Qed.

(** What [unload] leaves behind, whether it returns or raises: the module
    is not registered, and the trace has one teardown message more at
    most. *)
Lemma unload_shape st :
  ∃ w c,
    (unload st).2
    = {| self := self st;
         modules := delete (module_id (self st)) (modules st);
         tenants := tenants st; runtime_wtps := runtime_wtps st;
         wtps := w; calls := calls st ++ c |} ∧
    (c = [] ∨ ∃ a msg, c = [stream_write a msg]).
Proof.
  assert (Hcases : (is_Some (modules st !! module_id (self st))
                    ∨ remove_missing (module_id (self st)) = Return tt)
                   ∨ (modules st !! module_id (self st) = None
                      ∧ ∃ e, remove_missing (module_id (self st)) = Raise e)).
  { destruct (modules st !! module_id (self st)); [by left; left|].
    destruct (remove_missing (module_id (self st))) as [[]|e];
      [by left; right|right; by eauto]. }
  destruct Hcases as [Hreg|(Hm & e & Hr)].
  - destruct (_block (self st)) as [b|] eqn:Hb.
    + destruct (wtp_connected (wtps st (radio b))) eqn:Hc.
      * destruct (DEL_SUMMARY_build
                    (del_summary (wtp_seq (wtps st (radio b)) + 1)%N
                       (module_id (self st)))) as [msg|] eqn:Hq.
        -- rewrite (unload_connected st b msg Hb Hreg Hc Hq).
           eexists _, _. split; [done|]. right. by eexists _, _.
        -- rewrite (unload_unbuilt st b Hb Hreg Hc Hq).
           eexists _, []. rewrite app_nil_r. split; [done|by left].
      * rewrite (unload_disconnected st b Hb Hreg Hc).
        eexists _, []. rewrite app_nil_r. split; [done|by left].
    + rewrite (unload_unbound st Hb Hreg).
      eexists _, []. rewrite app_nil_r. split; [done|by left].
  - rewrite (unload_refused st e Hm Hr).
    exists (wtps st), []. rewrite app_nil_r, delete_id by done.
    split; [by destruct st|by left].
Qed.

(** What [unload] never changes, whether it returns or raises. *)
Lemma unload_frame st :
  self (unload st).2 = self st ∧
  tenants (unload st).2 = tenants st ∧
  runtime_wtps (unload st).2 = runtime_wtps st ∧
  modules (unload st).2 = delete (module_id (self st)) (modules st).
Proof. by destruct (unload_shape st) as (w & c & -> & _). Qed.

(** X17.  A response for a module whose tenant is gone, or whose access
    point is no longer one of its tenant's, is not decoded: the module is
    unloaded, exactly as [unload] does it, its frames stay as they were and
    the callback is not called. *)
Theorem X17_stale_response st response :
  (tenants st !! tenant_id (self st) = None ∨
   ∃ tenant block, tenants st !! tenant_id (self st) = Some tenant ∧
                   _block (self st) = Some block ∧ radio block ∉ tenant) →
  let r := handle_response response st in
  r = unload st ∧
  frames (self r.2) = frames (self st) ∧
  modules r.2 !! module_id (self st) = None ∧
  handle_callback (module_id (self st)) ∉ drop (length (calls st)) (calls r.2).
Proof.
  intros Hstale r.
  assert (Heq : r = unload st).
  { subst r. unfold handle_response, bind at 1, get.
    destruct Hstale as [->|(tenant & block & -> & -> & Hn)]; [done|].
    by rewrite decide_True. }
  rewrite Heq. destruct (unload_frame st) as (Hs & _ & _ & Hm).
  split_and!; try done.
  - by rewrite Hs.
  - by rewrite Hm, lookup_delete_eq.
  - destruct (unload_shape st) as (w & c & -> & Hc). cbn [snd calls].
    rewrite drop_app_length.
    destruct Hc as [->|(a & msg & ->)]; [apply not_elem_of_nil|].
    by intros [?|?%not_elem_of_nil]%elem_of_cons.
Qed.



(** X19.  An assignment to [block] that raises, for whatever reason,
    leaves the module and the rest of the state as they were. *)
Theorem X19_block_set_rejected st value e :
  (block_set value st).1 = Raise e → (block_set value st).2 = st.
Proof.
  unfold block_set, getitem, bind, lift, raise, ret, get, update, modify.
  destruct value; cbn; try done.
  repeat (case_match; simplify_eq/=; try done).
Qed.

End more_proofs.


Lemma X19_block_set_rejected_witness :
  (block_set (ext := sample_externals) (VDict descriptor_without_wtp)
     sample_summary_state).2 = sample_summary_state.
Proof.
  apply (X19_block_set_rejected (ext := sample_externals) _ _
           (KeyError (KStr "wtp"))).
  by vm_compute.
Defined.

Section bye_again.
Context {ext : Externals}.

Lemma handle_bye_eq st wtp :
  handle_bye wtp st
  = (Return tt,
     {| self := self st;
        modules :=
          foldl (λ m id, delete id m) (modules st)
            (filter (λ kv, bound_to (wtp_supports (wtps st wtp)) kv.2)
               (map_to_list (modules st))).*1;
        tenants := tenants st; runtime_wtps := runtime_wtps st;
        wtps := wtps st; calls := calls st |}).
Proof.
  unfold handle_bye, bind, get. rewrite remove_module_loop; [done|..].
  - eapply sublist_NoDup; [apply (NoDup_fst_map_to_list (modules st))|].
    apply fmap_sublist, sublist_filter.
  - intros id Hid. apply elem_of_to_be_removed in Hid as (x & -> & _).
    by eexists.
Qed.

Lemma none_bound_left supported (m : gmap N Summary) :
  filter (λ kv, bound_to supported kv.2)
    (map_to_list
       (foldl (λ m id, delete id m) m
          (filter (λ kv, bound_to supported kv.2) (map_to_list m)).*1))
  = [].
Proof.
  match goal with |- ?l = [] => destruct l as [|[k x] l'] eqn:He end; [done|].
  assert (Hin : (k, x) ∈ (k, x) :: l') by apply list_elem_of_here.
  rewrite <- He in Hin. apply list_elem_of_filter in Hin as [Hb Hin].
  apply elem_of_map_to_list in Hin. rewrite lookup_delete_list in Hin.
  destruct (decide _) as [|Hn]; [done|].
  exfalso. apply Hn. apply elem_of_to_be_removed. eauto.
Qed.

(** X20.  Handling the bye of an access point a second time removes
    nothing more: the state after the first handling is a fixed point, and
    the module object, the runtime and the access points were never
    touched. *)
Theorem X20_handle_bye_twice st wtp :
  let r := handle_bye wtp st in
  self r.2 = self st ∧ tenants r.2 = tenants st ∧ wtps r.2 = wtps st ∧
  handle_bye wtp r.2 = (Return tt, r.2).
Proof.
  intros r. subst r. rewrite handle_bye_eq. cbn [snd]. split_and!; try done.
  rewrite handle_bye_eq. cbn [self modules tenants runtime_wtps wtps calls].
  by rewrite none_bound_left.
Qed.

End bye_again.

(** X21.  The period of a module is never below 1000 and its limit never
    below -1: the constructor sets 2000 and -1, and each setter stores a
    value in range and otherwise raises, leaving the module as it was.
    Both setters raise with the same text, which names the limit. *)
Theorem X21_period_limit_range st v id ty tid :
  let valid (m : Summary) := 1000 ≤ _period m ∧ -1 ≤ _limit m in
  let rp := period_set v st in
  let rl := limit_set v st in
  valid (Summary_new id ty tid) ∧
  (valid (self st) → valid (self rp.2) ∧ valid (self rl.2)) ∧
  (rp.1 = Return tt ↔ 1000 ≤ v) ∧
  (rl.1 = Return tt ↔ -1 ≤ v) ∧
  (1000 ≤ v → _period (self rp.2) = v ∧ _limit (self rp.2) = _limit (self st)) ∧
  (-1 ≤ v → _limit (self rl.2) = v ∧ _period (self rl.2) = _period (self st)) ∧
  (v < 1000 →
   rp = (Raise (ValueError ("Invalid limit value (" +:+ pretty v +:+ ")")), st)) ∧
  (v < -1 →
   rl = (Raise (ValueError ("Invalid limit value (" +:+ pretty v +:+ ")")), st)).
Proof.
  intros valid rp rl. subst valid rp rl. cbn beta.
  unfold period_set, limit_set, raise, update, modify.
  destruct (decide (v < 1000)) as [Hp|Hp]; destruct (decide (v < -1)) as [Hl|Hl];
    cbn; split_and!; try done; try lia; try (intros; split; lia);
    try (split; intros; try done; lia).
Qed.

Lemma X21_period_limit_range_witness :
  period_set 500 sample_summary_state
  = (Raise (ValueError "Invalid limit value (500)"), sample_summary_state) ∧
  _period (self (period_set 5000 sample_summary_state).2) = 5000.
Proof.
  destruct (X21_period_limit_range sample_summary_state 500 0%N "" 0%N)
    as (_ & _ & _ & _ & _ & _ & Hlow & _).
  destruct (X21_period_limit_range sample_summary_state 5000 0%N "" 0%N)
    as (_ & _ & _ & _ & Hok & _).
  split; [apply Hlow; lia|apply Hok; lia].
Defined.

Lemma X16_response_replaces_frames_witness :
  let r1 := handle_response (ext := sample_externals) [data_entry; data_entry]
              sample_summary_state in
  let r2 := handle_response (ext := sample_externals) [data_entry] r1.2 in
  length (frames (self r2.2)) = 1%nat.
Proof.
  intros r1 r2.
  assert (Hin : radio block_a ∈ ({[ 1%N; 2%N ]} : gset EtherAddress))
    by (apply (bool_decide_unpack _); by vm_compute).
  destruct (X16_response_replaces_frames (ext := sample_externals)
              sample_summary_state block_a {[ 1%N; 2%N ]}
              [data_entry; data_entry] [data_entry] eq_refl eq_refl Hin)
    as (_ & Hf & _).
  subst r2 r1. by rewrite Hf.
Defined.

Lemma X17_stale_response_witness :
  let st := {| self := with_block (Some block_a)
                         (Summary_new 3%N "summary" 6%N);
               modules := modules sample_summary_state;
               tenants := tenants sample_summary_state;
               runtime_wtps := runtime_wtps sample_summary_state;
               wtps := sample_wtps; calls := [] |} in
  let r := handle_response (ext := sample_externals) [data_entry] st in
  frames (self r.2) = [] ∧ modules r.2 !! 3%N = None.
Proof.
  intros st r.
  destruct (X17_stale_response (ext := sample_externals) st [data_entry])
    as (_ & Hf & Hm & _).
  - left. by vm_compute.
  - split; [exact Hf|exact Hm].
Defined.

End summary_extra.

(** ** The wire formats and the tick of the summary trigger *)

Module summary_wire.
Import summary wire_theory summary_theory summary_extra.

Section wire_proofs.
Context {ext : Externals}.

(** X22.  What [DEL_SUMMARY] builds is 12 bytes long, the figure [unload]
    writes into the length field of its container, and parsing the bytes,
    whatever follows them, gives the container back and leaves what
    follows. *)
Theorem X22_DEL_SUMMARY_round_trip c bs rest :
  DEL_SUMMARY_build c = Some bs →
  length bs = 12%nat ∧
  DEL_SUMMARY_parse (bs ++ rest) = Some (c, rest) ∧
  ∀ seq id, Z.of_nat (length bs) = c_length (del_summary seq id).
Proof.
  intros H. split_and!.
  - by eapply DEL_SUMMARY_build_length.
  - by apply DEL_SUMMARY_parse_build.
  - intros seq id. by rewrite (DEL_SUMMARY_build_length _ _ H).
Qed.

(** X23.  [ADD_SUMMARY] builds a request exactly when each field fits its
    width: one byte for version, type, channel and band, two for length
    and period, four for seq and module_id, six for the two addresses, and
    the signed 16 bits of limit.  What it builds is 30 bytes long, the
    length [run_once] declares in its container, and parses back to the
    fields of the request. *)
Theorem X23_ADD_SUMMARY_round_trip q :
  (is_Some (ADD_SUMMARY_build q)
   ↔ 0 ≤ q_version q < 256 ∧ 0 ≤ q_type q < 256 ∧ 0 ≤ q_length q < 65536 ∧
     (q_seq q < 4294967296)%N ∧ (q_module_id q < 4294967296)%N ∧
     (q_addr q < 281474976710656)%N ∧ (q_hwaddr q < 281474976710656)%N ∧
     0 ≤ q_channel q < 256 ∧ 0 ≤ q_band q < 256 ∧
     -32768 ≤ q_limit q < 32768 ∧ 0 ≤ q_period q < 65536) ∧
  ∀ bs rest,
    ADD_SUMMARY_build q = Some bs →
    length bs = 30%nat ∧
    ADD_SUMMARY_parse (q_wtp q) (bs ++ rest) = Some (q, rest) ∧
    ∀ m block seq a,
      Z.of_nat (length bs) = q_length (add_summary m block seq a).
Proof.
  split; [apply ADD_SUMMARY_build_fits|]. intros bs rest H. split_and!.
  - by eapply ADD_SUMMARY_build_length.
  - by apply ADD_SUMMARY_parse_build.
  - intros m block seq a. by rewrite (ADD_SUMMARY_build_length _ _ H).
Qed.

End wire_proofs.

(** X24.  A response that [SUMMARY_TRIGGER] builds has as many entries as
    its field nb_entries says, takes 20 bytes and 24 more for each entry,
    and parses back to itself. *)
Theorem X24_SUMMARY_TRIGGER_round_trip r bs rest :
  SUMMARY_TRIGGER_build r = Some bs →
  Z.of_nat (length (s_frames r)) = s_nb_entries r ∧
  length bs = (20 + 24 * length (s_frames r))%nat ∧
  SUMMARY_TRIGGER_parse (bs ++ rest) = Some (r, rest).
Proof.
  intros H. unfold SUMMARY_TRIGGER_build in H. built H.
  match goal with
  | B : (if decide _ then _ else _) = Some _ |- _ => rename B into Hes
  end.
  destruct (decide _) as [Hn|]; [|discriminate Hes].
  injection H as <-. split_and!.
  - done.
  - measured. rewrite (entries_build_length _ _ Hes). lia.
  - unfold SUMMARY_TRIGGER_parse. parsed.
    replace (Z.to_nat (s_nb_entries r)) with (length (s_frames r)) by lia.
    rewrite (entries_parse_build _ _ _ Hes).
    cbn [mbind option_bind]. rewrite N2Z.id. by destruct r.
Qed.

Lemma UBInt_parse_length n bs z rest :
  UBInt_parse n bs = Some (z, rest) → length bs = (n + length rest)%nat.
Proof.
  unfold UBInt_parse, take_field. case_decide; [|done].
  intros [= <- <-]. rewrite length_drop. lia.
Qed.

Lemma SBInt_parse_length n bs z rest :
  SBInt_parse n bs = Some (z, rest) → length bs = (n + length rest)%nat.
Proof.
  unfold SBInt_parse, take_field. case_decide; [|done].
  intros [= <- <-]. rewrite length_drop. lia.
Qed.

Ltac read H :=
  repeat (apply bind_Some in H as ([? ?] & ? & H)).

Ltac counted :=
  repeat match goal with
         | H : UBInt_parse _ _ = Some _ |- _ => apply UBInt_parse_length in H
         | H : SBInt_parse _ _ = Some _ |- _ => apply SBInt_parse_length in H
         end.

Lemma SUMMARY_ENTRY_parse_length bs e rest :
  SUMMARY_ENTRY_parse bs = Some (e, rest) →
  length bs = (24 + length rest)%nat.
Proof.
  intros H. unfold SUMMARY_ENTRY_parse in H. read H. injection H as <- <-.
  counted. lia.
Qed.

Lemma entries_parse_length count bs es rest :
  entries_parse count bs = Some (es, rest) →
  length es = count ∧ length bs = (24 * count + length rest)%nat.
Proof.
  revert bs es. induction count as [|count IH]; intros bs es H; cbn in H.
  - injection H as <- <-. split; [done|lia].
  - read H. injection H as <- <-.
    match goal with
    | E : SUMMARY_ENTRY_parse _ = Some _, P : entries_parse _ _ = Some _ |- _ =>
        apply SUMMARY_ENTRY_parse_length in E; apply IH in P as [P1 P2]
    end.
    cbn [length]. split; lia.
Qed.

(** X25.  A response parsed as [SUMMARY_TRIGGER] holds exactly the number
    of entries its field nb_entries says, and the bytes read are the 20 of
    the header and 24 for each entry: bytes that stop short of that are
    never parsed. *)
Theorem X25_SUMMARY_TRIGGER_parse_count bs r rest :
  SUMMARY_TRIGGER_parse bs = Some (r, rest) →
  length (s_frames r) = Z.to_nat (s_nb_entries r) ∧
  length bs = (20 + 24 * length (s_frames r) + length rest)%nat.
Proof.
  intros H. unfold SUMMARY_TRIGGER_parse in H. read H.
  injection H as <- <-. cbn [s_frames s_nb_entries].
  match goal with
  | P : entries_parse _ _ = Some _ |- _ =>
      apply entries_parse_length in P as [P1 P2]
  end.
  counted. split; lia.
Qed.

Section tick_proofs.
Context {ext : Externals}.

(** The container of a tick of a module whose tenant and access point are
    still there and whose address is set. *)
Lemma run_once_container_valid ts block tenant a :
  _block (self (base ts)) = Some block →
  tenants (base ts) !! tenant_id (self (base ts)) = Some tenant →
  radio block ∈ tenant →
  _addr (self (base ts)) = Some a →
  run_once_container ts
  = (Return (Some (block,
                   add_summary (self (base ts)) block
                     (wtp_seq (wtps (base ts) (radio block)) + 1)%N a)),
     {| base := (seq_read (radio block) (base ts)).2;
        written := written ts |}).
Proof.
  intros Hb Ht Hin Ha. unfold run_once_container, bind at 1, get.
  rewrite Ht, Hb. rewrite decide_False by (by intros Hn; apply Hn).
  unfold bind, on_base. cbn [fst snd]. rewrite seq_read_eq. cbn [fst snd].
  by rewrite Ha.
Qed.

Lemma run_once_valid ts block tenant a :
  _block (self (base ts)) = Some block →
  tenants (base ts) !! tenant_id (self (base ts)) = Some tenant →
  radio block ∈ tenant →
  _addr (self (base ts)) = Some a →
  let ts' := {| base := (seq_read (radio block) (base ts)).2;
                written := written ts |} in
  run_once ts
  = match ADD_SUMMARY_build
            (add_summary (self (base ts)) block
               (wtp_seq (wtps (base ts) (radio block)) + 1)%N a) with
    | None => (Raised FieldError, ts')
    | Some msg =>
        match wtp_connection (wtps (base ts) (radio block)) with
        | NoConnection => (Raised (AttributeError "stream"), ts')
        | StreamClosed => (StreamError, ts')
        | StreamOpen =>
            (Returned,
             {| base := base ts';
                written := written ts ++ [(radio block, msg)] |})
        end
    end.
Proof.
  intros Hb Ht Hin Ha ts'. subst ts'. unfold run_once.
  rewrite (run_once_container_valid ts block tenant a Hb Ht Hin Ha).
  destruct (ADD_SUMMARY_build _) as [msg|]; [|done].
  rewrite seq_read_eq. cbn [fst snd base wtps written].
  rewrite fn_lookup_insert. by cbn [wtp_connection].
Qed.

(** An access point is connected when its connection is there and its
    stream is open. *)
Lemma wtp_connected_open w :
  wtp_connected w = true ↔ wtp_connection w = StreamOpen.
Proof. unfold wtp_connected. by destruct (wtp_connection w). Qed.

Lemma run_once_stale ts :
  (tenants (base ts) !! tenant_id (self (base ts)) = None ∨
   ∃ tenant block,
     tenants (base ts) !! tenant_id (self (base ts)) = Some tenant ∧
     _block (self (base ts)) = Some block ∧ radio block ∉ tenant) →
  run_once ts
  = (match (unload (base ts)).1 with
     | Return _ => Returned
     | Raise e => Raised e
     end,
     {| base := (unload (base ts)).2; written := written ts |}).
Proof.
  intros Hstale.
  assert (Heq : run_once_container ts
                = (on_base unload ;; ret None) ts).
  { unfold run_once_container, bind at 1, get.
    destruct Hstale as [->|(tenant & block & -> & -> & Hn)]; [done|].
    by rewrite decide_True. }
  unfold run_once. rewrite Heq. unfold bind, on_base, ret. cbn [fst snd].
  by destruct (unload (base ts)) as [[[]|e] st'].
Qed.

(** X26.  A tick of a module whose tenant and access point are still
    there, whose request fits [ADD_SUMMARY] and whose access point is
    connected writes one message to that access point: 30 bytes that parse
    back to a request of type 0x22 and declared length 30, with the next
    sequence number of the access point, the id, limit, period and address
    of the module and the hardware address, channel and band of its block.
    The registry, the module and the trace of the other collaborator calls
    are as before. *)
Theorem X26_run_once_request ts block tenant a msg :
  _block (self (base ts)) = Some block →
  tenants (base ts) !! tenant_id (self (base ts)) = Some tenant →
  radio block ∈ tenant →
  _addr (self (base ts)) = Some a →
  wtp_connected (wtps (base ts) (radio block)) = true →
  ADD_SUMMARY_build
    (add_summary (self (base ts)) block
       (wtp_seq (wtps (base ts) (radio block)) + 1)%N a) = Some msg →
  let r := run_once ts in
  let m := self (base ts) in
  r.1 = Returned ∧
  self (base r.2) = m ∧ modules (base r.2) = modules (base ts) ∧
  calls (base r.2) = calls (base ts) ∧
  wtp_seq (wtps (base r.2) (radio block))
  = (wtp_seq (wtps (base ts) (radio block)) + 1)%N ∧
  written r.2 = written ts ++ [(radio block, msg)] ∧
  length msg = 30%nat ∧
  ∃ q, ADD_SUMMARY_parse (radio block) msg = Some (q, []) ∧
       q_type q = 0x22 ∧ q_length q = 30 ∧ q_version q = PT_VERSION ∧
       q_seq q = wtp_seq (wtps (base r.2) (radio block)) ∧
       q_module_id q = module_id m ∧
       q_limit q = _limit m ∧ q_period q = _period m ∧ q_addr q = a ∧
       q_hwaddr q = hwaddr block ∧ q_channel q = channel block ∧
       q_band q = band block.
Proof.
  intros Hb Ht Hin Ha Hc%wtp_connected_open Hq r m. subst r m.
  rewrite (run_once_valid ts block tenant a Hb Ht Hin Ha), Hq, Hc.
  rewrite seq_read_eq. cbn. rewrite fn_lookup_insert. cbn.
  split_and!; try done.
  - by eapply ADD_SUMMARY_build_length.
  - pose proof (ADD_SUMMARY_parse_build _ _ [] Hq) as Hp.
    rewrite app_nil_r in Hp. eexists. split; [exact Hp|].
    split_and!; done.
Qed.

(** X27.  A tick of a module whose tenant is gone, or whose access point is
    no longer one of its tenant's, writes no request: it unloads the
    module, exactly as [unload] does it. *)
Theorem X27_run_once_stale ts :
  (tenants (base ts) !! tenant_id (self (base ts)) = None ∨
   ∃ tenant block,
     tenants (base ts) !! tenant_id (self (base ts)) = Some tenant ∧
     _block (self (base ts)) = Some block ∧ radio block ∉ tenant) →
  let r := run_once ts in
  (∀ e, r.1 = Raised e ↔ (unload (base ts)).1 = Raise e) ∧
  (r.1 = Returned ↔ (unload (base ts)).1 = Return tt) ∧
  base r.2 = (unload (base ts)).2 ∧
  written r.2 = written ts ∧
  modules (base r.2) !! module_id (self (base ts)) = None.
Proof.
  intros Hstale r. subst r. rewrite (run_once_stale ts Hstale).
  cbn [fst snd base written]. split_and!; try done.
  - intros e. destruct (unload (base ts)).1 as [[]|e']; split; congruence.
  - destruct (unload (base ts)).1 as [[]|e']; split; congruence.
  - by rewrite (proj2 (proj2 (proj2 (unload_frame (base ts))))), lookup_delete_eq.
Qed.

(** X28.  Requests are fire and forget: two ticks in a row write two
    messages to the same access point, which parse to requests that differ
    in nothing but their sequence numbers, and these follow each other. *)
Theorem X28_run_once_twice ts block tenant a msg1 msg2 :
  _block (self (base ts)) = Some block →
  tenants (base ts) !! tenant_id (self (base ts)) = Some tenant →
  radio block ∈ tenant →
  _addr (self (base ts)) = Some a →
  wtp_connected (wtps (base ts) (radio block)) = true →
  let seq := wtp_seq (wtps (base ts) (radio block)) in
  let m := self (base ts) in
  ADD_SUMMARY_build (add_summary m block (seq + 1)%N a) = Some msg1 →
  ADD_SUMMARY_build (add_summary m block (seq + 2)%N a) = Some msg2 →
  let r1 := run_once ts in
  let r2 := run_once r1.2 in
  r1.1 = Returned ∧ r2.1 = Returned ∧
  written r2.2 = written ts ++ [(radio block, msg1); (radio block, msg2)] ∧
  ADD_SUMMARY_parse (radio block) msg1
  = Some (add_summary m block (seq + 1)%N a, []) ∧
  ADD_SUMMARY_parse (radio block) msg2
  = Some (add_summary m block (seq + 2)%N a, []).
Proof.
  intros Hb Ht Hin Ha Hc%wtp_connected_open seq m Hq1 Hq2 r1 r2.
  assert (H1 : r1 = (Returned,
                     {| base := (seq_read (radio block) (base ts)).2;
                        written := written ts ++ [(radio block, msg1)] |})).
  { subst r1. rewrite (run_once_valid ts block tenant a Hb Ht Hin Ha).
    fold seq m. by rewrite Hq1, Hc. }
  assert (H2 : r2 = (Returned,
                     {| base := (seq_read (radio block) (base r1.2)).2;
                        written := written r1.2 ++ [(radio block, msg2)] |})).
  { subst r2. rewrite H1. cbn [snd].
    rewrite (run_once_valid _ block tenant a); cbn [base written];
      rewrite ?seq_read_eq; cbn [snd self tenants]; [|done..].
    cbn [wtps]. rewrite fn_lookup_insert. cbn [wtp_seq wtp_connection].
    fold seq m. replace (seq + 1 + 1)%N with (seq + 2)%N by lia.
    by rewrite Hq2, Hc. }
  rewrite H2, H1. cbn [fst snd written]. split_and!; try done.
  - by rewrite <- app_assoc.
  - pose proof (ADD_SUMMARY_parse_build _ _ [] Hq1) as Hp.
    by rewrite app_nil_r in Hp.
  - pose proof (ADD_SUMMARY_parse_build _ _ [] Hq2) as Hp.
    by rewrite app_nil_r in Hp.
Qed.

(** X29.  The period setter accepts every value from 1000 on, but the
    period field of [ADD_SUMMARY] is two bytes wide: with a period of
    65536 or more the next tick of the module, its tenant and access point
    still there, raises the [FieldError] of the build.  Nothing is
    written and the module stays registered, while the sequence number
    read for the container is used up. *)
Theorem X29_run_once_wide_period ts block tenant a v :
  _block (self (base ts)) = Some block →
  tenants (base ts) !! tenant_id (self (base ts)) = Some tenant →
  radio block ∈ tenant →
  _addr (self (base ts)) = Some a →
  65536 ≤ v →
  let rp := period_set v (base ts) in
  let r := run_once {| base := rp.2; written := written ts |} in
  rp.1 = Return tt ∧
  r.1 = Raised FieldError ∧
  written r.2 = written ts ∧
  modules (base r.2) = modules (base ts) ∧
  wtp_seq (wtps (base r.2) (radio block))
  = (wtp_seq (wtps (base ts) (radio block)) + 1)%N.
Proof.
  intros Hb Ht Hin Ha Hv rp r.
  assert (Hp : rp = (Return tt,
                     {| self := with_period v (self (base ts));
                        modules := modules (base ts);
                        tenants := tenants (base ts);
                        runtime_wtps := runtime_wtps (base ts);
                        wtps := wtps (base ts); calls := calls (base ts) |})).
  { subst rp. unfold period_set. rewrite decide_False by lia.
    by destruct (base ts). }
  subst r. rewrite Hp. cbn [fst snd]. split; [done|].
  rewrite (run_once_valid _ block tenant a); cbn [base self tenants]; [|done..].
  destruct (ADD_SUMMARY_build _) as [msg|] eqn:Hq.
  - apply mk_is_Some, ADD_SUMMARY_build_fits in Hq.
    cbn in Hq. lia.
  - rewrite seq_read_eq. cbn. by rewrite fn_lookup_insert.
Qed.

(** X30.  Unlike [unload], a tick does not look at the connection before
    it writes: when the access point of the block is not connected the
    write raises, after the request was built and the sequence number
    used: the AttributeError of [wtp.connection.stream] when there is no
    connection, the error of the stream when the stream is closed.
    Nothing is written and the module stays registered, whereas [unload]
    returns in the same state, if the module is registered or the worker
    lets its id pass. *)
Theorem X30_run_once_not_connected ts block tenant a msg :
  _block (self (base ts)) = Some block →
  tenants (base ts) !! tenant_id (self (base ts)) = Some tenant →
  radio block ∈ tenant →
  _addr (self (base ts)) = Some a →
  wtp_connected (wtps (base ts) (radio block)) = false →
  ADD_SUMMARY_build
    (add_summary (self (base ts)) block
       (wtp_seq (wtps (base ts) (radio block)) + 1)%N a) = Some msg →
  let r := run_once ts in
  r.1 = match wtp_connection (wtps (base ts) (radio block)) with
        | NoConnection => Raised (AttributeError "stream")
        | _ => StreamError
        end ∧
  written r.2 = written ts ∧
  modules (base r.2) = modules (base ts) ∧
  wtp_seq (wtps (base r.2) (radio block))
  = (wtp_seq (wtps (base ts) (radio block)) + 1)%N ∧
  (is_Some (modules (base ts) !! module_id (self (base ts)))
   ∨ remove_missing (module_id (self (base ts))) = Return tt →
   (unload (base ts)).1 = Return tt ∧
   calls (unload (base ts)).2 = calls (base ts)).
Proof.
  intros Hb Ht Hin Ha Hc Hq r. subst r.
  rewrite (run_once_valid ts block tenant a Hb Ht Hin Ha), Hq.
  rewrite seq_read_eq.
  assert (Hw : wtp_connection (wtps (base ts) (radio block)) ≠ StreamOpen).
  { intros Ho%wtp_connected_open. by rewrite Ho in Hc. }
  split_and!.
  - by destruct (wtp_connection (wtps (base ts) (radio block))).
  - by destruct (wtp_connection (wtps (base ts) (radio block))).
  - by destruct (wtp_connection (wtps (base ts) (radio block))).
  - destruct (wtp_connection (wtps (base ts) (radio block))); cbn;
      by rewrite fn_lookup_insert.
  - intros Hreg. by rewrite (unload_disconnected _ _ Hb Hreg Hc).
Qed.

End tick_proofs.

Lemma X22_DEL_SUMMARY_round_trip_witness :
  length teardown_bytes = 12%nat ∧
  DEL_SUMMARY_parse (teardown_bytes ++ [7])
  = Some (del_summary (ext := sample_externals) 1%N 3%N, [7]).
Proof.
  destruct (X22_DEL_SUMMARY_round_trip (ext := sample_externals)
              (del_summary (ext := sample_externals) 1%N 3%N)
              teardown_bytes [7] eq_refl) as (Hlen & Hparse & _).
  split; [exact Hlen|exact Hparse].
Defined.

Lemma X23_ADD_SUMMARY_round_trip_witness :
  let q := add_summary (ext := sample_externals) sample_summary block_a
             1%N 99%N in
  is_Some (ADD_SUMMARY_build q) ∧
  ADD_SUMMARY_parse 1%N (first_request ++ []) = Some (q, []).
Proof.
  intros q.
  destruct (X23_ADD_SUMMARY_round_trip (ext := sample_externals) q)
    as [Hfits Hround].
  split.
  - apply Hfits. unfold q, add_summary, sample_summary, block_a, PT_ADD_SUMMARY.
    cbn. lia.
  - destruct (Hround first_request [] eq_refl) as (_ & Hparse & _).
    exact Hparse.
Defined.

Lemma X24_SUMMARY_TRIGGER_round_trip_witness :
  length response_bytes = 44%nat ∧
  SUMMARY_TRIGGER_parse (response_bytes ++ []) = Some (sample_response, []).
Proof.
  destruct (X24_SUMMARY_TRIGGER_round_trip sample_response response_bytes []
              eq_refl) as (_ & Hlen & Hparse).
  split; [exact Hlen|exact Hparse].
Defined.

Lemma X25_SUMMARY_TRIGGER_parse_count_witness :
  length (s_frames sample_response) = 1%nat ∧
  length (response_bytes ++ [9; 9]) = 46%nat.
Proof.
  destruct (X25_SUMMARY_TRIGGER_parse_count (response_bytes ++ [9; 9])
              sample_response [9; 9] eq_refl) as [Hcount Hlen].
  split; [exact Hcount|exact Hlen].
Defined.

Lemma sample_tenant : radio block_a ∈ ({[ 1%N; 2%N ]} : gset EtherAddress).
Proof. apply (bool_decide_unpack _). by vm_compute. Qed.

Lemma X26_run_once_request_witness :
  let r := run_once (ext := sample_externals) sample_tick in
  r.1 = Returned ∧ written r.2 = [(1%N, first_request)] ∧
  length first_request = 30%nat.
Proof.
  intros r.
  destruct (X26_run_once_request (ext := sample_externals) sample_tick
              block_a {[ 1%N; 2%N ]} 99%N first_request
              eq_refl eq_refl sample_tenant eq_refl eq_refl eq_refl)
    as (Hret & _ & _ & _ & _ & Hw & Hlen & _).
  split_and!; [exact Hret|exact Hw|exact Hlen].
Defined.

Lemma X27_run_once_stale_witness :
  let r := run_once (ext := sample_externals) stale_tick in
  written r.2 = [] ∧ modules (base r.2) !! 3%N = None.
Proof.
  intros r.
  destruct (X27_run_once_stale (ext := sample_externals) stale_tick)
    as (_ & _ & _ & Hw & Hm).
  - left. by vm_compute.
  - split; [exact Hw|exact Hm].
Defined.

Lemma X28_run_once_twice_witness :
  let r2 := run_once (ext := sample_externals)
              (run_once (ext := sample_externals) sample_tick).2 in
  r2.1 = Returned ∧
  written r2.2 = [(1%N, first_request); (1%N, second_request)].
Proof.
  intros r2.
  destruct (X28_run_once_twice (ext := sample_externals) sample_tick
              block_a {[ 1%N; 2%N ]} 99%N first_request second_request
              eq_refl eq_refl sample_tenant eq_refl eq_refl eq_refl eq_refl)
    as (_ & Hret & Hw & _).
  split; [exact Hret|exact Hw].
Defined.

Lemma X29_run_once_wide_period_witness :
  let rp := period_set 70000 sample_summary_state in
  let r := run_once (ext := sample_externals)
             {| base := rp.2; written := [] |} in
  rp.1 = Return tt ∧ r.1 = Raised FieldError ∧ written r.2 = [].
Proof.
  intros rp r.
  destruct (X29_run_once_wide_period (ext := sample_externals) sample_tick
              block_a {[ 1%N; 2%N ]} 99%N 70000
              eq_refl eq_refl sample_tenant eq_refl)
    as (Hset & Hret & Hw & _).
  - lia.
  - split_and!; [exact Hset|exact Hret|exact Hw].
Defined.

Lemma offline_tenant : radio block_e ∈ ({[ 3%N ]} : gset EtherAddress).
Proof. apply (bool_decide_unpack _). by vm_compute. Qed.

Lemma X30_run_once_not_connected_witness :
  let r := run_once (ext := sample_externals) offline_tick in
  r.1 = Raised (AttributeError "stream") ∧ written r.2 = [] ∧
  wtp_seq (wtps (base r.2) 3%N) = 1%N.
Proof.
  intros r.
  destruct (X30_run_once_not_connected (ext := sample_externals) offline_tick
              block_e {[ 3%N ]} 99%N
              [0; 34; 0; 30; 0; 0; 0; 1; 0; 0; 0; 3; 0; 0; 0; 0; 0; 99;
               0; 0; 0; 0; 0; 30; 1; 0; 255; 255; 7; 208]
              eq_refl eq_refl offline_tenant eq_refl eq_refl eq_refl)
    as (Hret & Hw & _ & Hseq & _).
  split_and!; [exact Hret|exact Hw|exact Hseq].
Defined.

End summary_wire.
